(** * mini-file.c: the in-memory store of a parsed INI file

    A shallow embedding of [src/mini-file.c] and the properties of its
    section and key/value store.

    Representation.
    - The two singly linked lists ([Section] through [next], [SectionData]
      through [next]) are Rocq lists, head first; a [NULL] link is [nil].
    - A [Section *] that points into the section list of a [MiniFile] is the
      position of the node counted from the head ([None] is [NULL]).  The
      only such pointer the program stores is [__current_section]; the only
      function that moves nodes to other positions, the prepend of
      [mini_file_insert_section], overwrites it in the same call.
    - A [char *] stored in a node is an [option string]: [strdup] returns
      [NULL] when it cannot allocate and no caller tests its result.
    - [malloc] and [strdup] are answered by an [allocator], the list of the
      outcomes of the successive requests of one call.
    - Behaviour that C leaves undefined (a [NULL] handed to [strcmp], a
      dangling [__current_section]) is the outcome [Undefined]. *)

From Stdlib Require Import ZArith List String Bool Lia.
Import ListNotations.

(** ** Machine integers *)

Module CInt.
Local Open Scope Z_scope.

Definition UINT_MAX : Z := 2 ^ 32 - 1.
Definition INT_MAX : Z := 2 ^ 31 - 1.
Definition INT_MIN : Z := - 2 ^ 31.

(** [unsigned int] arithmetic is modulo 2^32. *)
Definition uint_incr (n : Z) : Z := (n + 1) mod 2 ^ 32.

(** [i++] on an [int].  ISO C leaves the overflow at [INT_MAX] undefined;
    the embedding takes the two's-complement wrap-around of the usual
    targets.  It is reached only by a list of 2^31 nodes or more. *)
Definition int_incr (i : Z) : Z := (i + 1 + 2 ^ 31) mod 2 ^ 32 - 2 ^ 31.

(** The conversion of an [int] to [unsigned int] that [i < section_pos]
    applies to its left operand. *)
Definition to_unsigned (i : Z) : Z := i mod 2 ^ 32.

(** The values of an [unsigned int] parameter. *)
Definition is_uint (n : Z) : Prop := 0 <= n <= UINT_MAX.
End CInt.

(** ** Outcomes of a call *)

Inductive outcome (A : Type) : Type :=
| Done (a : A)
| Undefined.
Arguments Done {A} a.
Arguments Undefined {A}.

Definition bind {A B : Type} (m : outcome A) (f : A -> outcome B) : outcome B :=
  match m with
  | Done a => f a
  | Undefined => Undefined
  end.

Notation "x <- m ;; k" := (bind m (fun x => k))
  (at level 61, m at next level, right associativity).

(** ** The allocator *)

(** The answers to the allocation requests of one call, in program order:
    [true] when the request is served.  Requests past the end are served. *)
Definition allocator : Type := list bool.

Definition alloc_nth (al : allocator) (n : nat) : bool := nth n al true.

(** Every request of the call is served. *)
Definition succeeds (al : allocator) : Prop := forallb (fun b => b) al = true.

Definition strdup (served : bool) (s : string) : option string :=
  if served then Some s else None.

(** [strcmp]: negative, zero or positive by the first differing byte. *)
Definition strcmp (a b : string) : Z :=
  match String.compare a b with
  | Eq => 0%Z
  | Lt => (-1)%Z
  | Gt => 1%Z
  end.

(** ** Data model *)

(** [struct SectionData { char *key; char *value; SectionData *next; }] *)
Record SectionData : Type := mkSectionData {
  key : option string;
  value : option string
}.

(** [struct Section { char *name; SectionData *data; Section *next; }] *)
Record Section_t : Type := mkSection {
  name : option string;
  data : list SectionData
}.

(** [struct MiniFile { char *file_name; Section *section;
                       Section *__current_section; }] *)
Record MiniFile : Type := mkMiniFile {
  file_name : option string;
  section : list Section_t;
  __current_section : option nat
}.

(** What a mutating call returns: [NULL] or its [mini_file] argument. *)
Inductive retptr : Type := RetNull | RetSelf.

(** ** Constructors of nodes *)

Definition mini_file_section_data_new (al : allocator) (k v : string)
  : option SectionData :=
  if alloc_nth al 0
  then Some {| key := strdup (alloc_nth al 1) k;
               value := strdup (alloc_nth al 2) v |}
  else None.

Definition mini_file_section_new (al : allocator) (section_name : string)
  : option Section_t :=
  if alloc_nth al 0
  then Some {| name := strdup (alloc_nth al 1) section_name; data := [] |}
  else None.

(** ** Searches *)

(** The [for] loop of [mini_file_find_section], entered at the node in
    position [i]. *)
Fixpoint find_section_from (sec : list Section_t) (i : nat)
  (section_name : string) : outcome (option nat) :=
  match sec with
  | [] => Done None
  | s :: next =>
      match name s with
      | None => Undefined
      | Some n =>
          if (strcmp n section_name =? 0)%Z then Done (Some i)
          else find_section_from next (S i) section_name
      end
  end.

Definition mini_file_find_section (mini_file : MiniFile)
  (section_name : string) : outcome (option nat) :=
  find_section_from (section mini_file) 0 section_name.

(** The [for] loop of [mini_file_find_key]. *)
Fixpoint find_key_from (d : list SectionData) (k : string)
  : outcome (option SectionData) :=
  match d with
  | [] => Done None
  | e :: next =>
      match key e with
      | None => Undefined
      | Some n =>
          if (strcmp n k =? 0)%Z then Done (Some e)
          else find_key_from next k
      end
  end.

Definition mini_file_find_key (s : Section_t) (k : string)
  : outcome (option SectionData) :=
  find_key_from (data s) k.

(** Reading through a [Section *] held by the program. *)
Definition deref (mini_file : MiniFile) (p : nat) : outcome Section_t :=
  match nth_error (section mini_file) p with
  | Some s => Done s
  | None => Undefined
  end.

(** ** Life cycle *)

(** [junk] is what [malloc] left in [__current_section], which
    [mini_file_new] does not initialise. *)
Definition mini_file_new (junk : option nat) (al : allocator)
  (fname : option string) : option MiniFile :=
  match fname with
  | None => None
  | Some f =>
      if alloc_nth al 0
      then Some {| file_name := strdup (alloc_nth al 1) f;
                   section := [];
                   __current_section := junk |}
      else None
  end.

(** ** Mutating operations *)

Definition mini_file_insert_section (al : allocator) (mini_file : MiniFile)
  (section_name : string) : outcome (retptr * MiniFile) :=
  p <- mini_file_find_section mini_file section_name ;;
  match p with
  | Some i =>
      Done (RetSelf, {| file_name := file_name mini_file;
                        section := section mini_file;
                        __current_section := Some i |})
  | None =>
      match mini_file_section_new al section_name with
      | None => Done (RetNull, mini_file)
      | Some s =>
          Done (RetSelf, {| file_name := file_name mini_file;
                            section := s :: section mini_file;
                            __current_section := Some 0 |})
      end
  end.

Definition mini_file_insert_key_and_value (al : allocator)
  (mini_file : MiniFile) (k v : string) : outcome (retptr * MiniFile) :=
  match section mini_file, __current_section mini_file with
  | [], _ => Done (RetNull, mini_file)
  | _ :: _, None => Done (RetNull, mini_file)
  | head :: rest, Some p =>
      cur <- deref mini_file p ;;
      found <- mini_file_find_key cur k ;;
      match found with
      | Some _ => Done (RetSelf, mini_file)
      | None =>
          match mini_file_section_data_new al k v with
          | None => Done (RetNull, mini_file)
          | Some e =>
              Done (RetSelf,
                    {| file_name := file_name mini_file;
                       section := {| name := name head;
                                     data := e :: data head |} :: rest;
                       __current_section := __current_section mini_file |})
          end
      end
  end.

(** ** Queries *)

(** The counting loops: [num++] on an [unsigned int] for every node. *)
Fixpoint count_nodes {A : Type} (l : list A) (num : Z) : Z :=
  match l with
  | [] => num
  | _ :: next => count_nodes next (CInt.uint_incr num)
  end.

Definition mini_file_get_number_of_sections (mini_file : MiniFile) : Z :=
  count_nodes (section mini_file) 0%Z.

Definition mini_file_get_number_of_keys (mini_file : MiniFile)
  (section_name : string) : outcome Z :=
  p <- mini_file_find_section mini_file section_name ;;
  match p with
  | None => Done 0%Z
  | Some i => sec <- deref mini_file i ;; Done (count_nodes (data sec) 0%Z)
  end.

(** The positional loops [for (i = 0; (i < pos && p != NULL); i++)
    p = p->next;] with [int i] and [unsigned int pos]: what [p] is when the
    loop is left. *)
Fixpoint advance {A : Type} (l : list A) (i pos : Z) : list A :=
  match l with
  | [] => []
  | _ :: next =>
      if (CInt.to_unsigned i <? pos)%Z then advance next (CInt.int_incr i) pos
      else l
  end.

Definition mini_file_get_section (mini_file : MiniFile) (section_pos : Z)
  : option string :=
  match advance (section mini_file) 0%Z section_pos with
  | [] => None
  | sec :: _ => name sec
  end.

Definition mini_file_get_key (mini_file : MiniFile) (section_name : string)
  (key_pos : Z) : outcome (option string) :=
  p <- mini_file_find_section mini_file section_name ;;
  match p with
  | None => Done None
  | Some i =>
      sec <- deref mini_file i ;;
      match advance (data sec) 0%Z key_pos with
      | [] => Done None
      | d :: _ => Done (key d)
      end
  end.

Definition mini_file_get_value (mini_file : MiniFile)
  (section_name k : string) : outcome (option string) :=
  p <- mini_file_find_section mini_file section_name ;;
  match p with
  | None => Done None
  | Some i =>
      sec <- deref mini_file i ;;
      found <- mini_file_find_key sec k ;;
      match found with
      | None => Done None
      | Some d => Done (value d)
      end
  end.

(** ** Call sequences *)

(** One mutating call, with the allocator that serves it. *)
Inductive op : Type :=
| SelectSection (al : allocator) (section_name : string)
| InsertEntry (al : allocator) (k v : string).

Definition step (mini_file : MiniFile) (o : op) : outcome (retptr * MiniFile) :=
  match o with
  | SelectSection al n => mini_file_insert_section al mini_file n
  | InsertEntry al k v => mini_file_insert_key_and_value al mini_file k v
  end.

Definition op_allocator (o : op) : allocator :=
  match o with
  | SelectSection al _ => al
  | InsertEntry al _ _ => al
  end.

(** The calls of [ops] in turn on the same [MiniFile]; the caller carries on
    whatever a call returns. *)
Fixpoint run (mini_file : MiniFile) (ops : list op) : outcome MiniFile :=
  match ops with
  | [] => Done mini_file
  | o :: rest => r <- step mini_file o ;; run (snd r) rest
  end.

(** The documents the API can build, under any behaviour of the allocator. *)
Inductive reachable : MiniFile -> Prop :=
| reach_new junk al fname mf :
    mini_file_new junk al (Some fname) = Some mf -> reachable mf
| reach_step mf o r mf' :
    reachable mf -> step mf o = Done (r, mf') -> reachable mf'.

(** The allocator that serves every request. *)
Definition no_failure : allocator := [].

Definition select_all (names : list string) : list op :=
  map (SelectSection no_failure) names.

Definition insert_all (entries : list (string * string)) : list op :=
  map (fun e => InsertEntry no_failure (fst e) (snd e)) entries.

(** The nodes that served allocations build. *)
Definition section_named (n : string) : Section_t :=
  {| name := Some n; data := [] |}.

Definition entry_of (e : string * string) : SectionData :=
  {| key := Some (fst e); value := Some (snd e) |}.

(** ** Well-formedness *)

(** No stored string is [NULL]: every [strdup] so far was served. *)
Definition keys_ok (d : list SectionData) : Prop :=
  Forall (fun e => key e <> None) d.

Definition names_ok (l : list Section_t) : Prop :=
  Forall (fun s => name s <> None) l.

Definition strings_ok (mini_file : MiniFile) : Prop :=
  names_ok (section mini_file) /\
  Forall (fun s => keys_ok (data s)) (section mini_file).

(** [__current_section] points into the section list once there is one. *)
Definition cursor_ok (mini_file : MiniFile) : Prop :=
  section mini_file = [] \/
  exists i, __current_section mini_file = Some i /\
            (i < List.length (section mini_file))%nat.

Definition section_names (mini_file : MiniFile) : list (option string) :=
  map name (section mini_file).

Definition keys_of (s : Section_t) : list (option string) :=
  map key (data s).

(** The sections of the document that carry the given name. *)
Definition sections_named (n : string) (mini_file : MiniFile) : list Section_t :=
  filter (fun s => match name s with
                   | Some m => String.eqb m n
                   | None => false
                   end) (section mini_file).

(** The keys of every section are pairwise distinct. *)
Definition keys_distinct (mini_file : MiniFile) : Prop :=
  Forall (fun s => NoDup (keys_of s)) (section mini_file).

(** The cursor is on the head of the section list, if there is one. *)
Definition cursor_on_head (mini_file : MiniFile) : Prop :=
  section mini_file = [] \/ __current_section mini_file = Some 0%nat.

(** ** Scenarios *)

Definition fresh_cfg : MiniFile :=
  {| file_name := Some "cfg"%string; section := []; __current_section := None |}.

(** A fresh document whose cursor field holds what [malloc] left there. *)
Definition junk_cfg : MiniFile :=
  {| file_name := Some "cfg"%string; section := [];
     __current_section := Some 7%nat |}.

(** The document after sections "A" then "B" were created: "B" is the head
    and the cursor is on it. *)
Definition doc_B_A : MiniFile :=
  {| file_name := Some "cfg"%string;
     section := [ {| name := Some "B"%string; data := [] |};
                  {| name := Some "A"%string; data := [] |} ];
     __current_section := Some 0%nat |}.

(** One section "A", selected, that holds the entry ("k", "v"). *)
Definition doc_A_k : MiniFile :=
  {| file_name := Some "cfg"%string;
     section := [ {| name := Some "A"%string;
                     data := [ {| key := Some "k"%string;
                                  value := Some "v"%string |} ] |} ];
     __current_section := Some 0%nat |}.

(** One section "A", selected, without entries. *)
Definition doc_A : MiniFile :=
  {| file_name := Some "cfg"%string;
     section := [ {| name := Some "A"%string; data := [] |} ];
     __current_section := Some 0%nat |}.

(** Sections "A" then "B" are created, then "A" is selected again. *)
Definition ops_A_B_A : list op :=
  select_all ["A"; "B"; "A"]%string.

(** The same, followed by two insertions of the key "k". *)
Definition ops_A_B_A_k_k : list op :=
  ops_A_B_A ++ insert_all [("k", "v1"); ("k", "v2")]%string.

(** The construction of section 8 of the specification. *)
Definition ops_round_trip : list op :=
  [ SelectSection no_failure "server";
    InsertEntry no_failure "host" "localhost";
    InsertEntry no_failure "port" "8080";
    SelectSection no_failure "client";
    InsertEntry no_failure "timeout" "30" ]%string.

(** [malloc] serves the node and [strdup] refuses the first string. *)
Definition first_strdup_fails : allocator := [true; false].

(** The document the construction of section 8 ends with. *)
Definition doc_server_client : MiniFile :=
  {| file_name := Some "cfg"%string;
     section :=
       [ {| name := Some "client"%string;
            data := [ entry_of ("timeout", "30")%string ] |};
         {| name := Some "server"%string;
            data := [ entry_of ("port", "8080")%string;
                      entry_of ("host", "localhost")%string ] |} ];
     __current_section := Some 0%nat |}.

(** * Properties *)

(** ** Strings and the allocator *)

Lemma compare_same (a : string) : String.compare a a = Eq.
Proof.
  pose proof (String.compare_antisym a a) as H.
  destruct (String.compare a a); simpl in H; congruence.
Qed.

Lemma strcmp_zero (a b : string) : (strcmp a b =? 0)%Z = true <-> a = b.
Proof.
  unfold strcmp. split.
  - intros E. apply String.compare_eq_iff.
    destruct (String.compare a b); simpl in E; congruence.
  - intros ->. now rewrite compare_same.
Qed.

Lemma strcmp_refl (a : string) : (strcmp a a =? 0)%Z = true.
Proof. now apply strcmp_zero. Qed.

Lemma strcmp_diff (a b : string) : a <> b -> (strcmp a b =? 0)%Z = false.
Proof.
  intros Hab. destruct (strcmp a b =? 0)%Z eqn:E; [|reflexivity].
  apply strcmp_zero in E. contradiction.
Qed.

Lemma succeeds_alloc_nth (al : allocator) (n : nat) :
  succeeds al -> alloc_nth al n = true.
Proof.
  unfold succeeds, alloc_nth. revert n.
  induction al as [|b al IH]; intros n H.
  - destruct n; reflexivity.
  - simpl in H. apply andb_true_iff in H as [Hb Hal].
    destruct n; simpl; auto.
Qed.

Lemma section_new_succeeds (al : allocator) (n : string) :
  succeeds al ->
  mini_file_section_new al n = Some {| name := Some n; data := [] |}.
Proof.
  intros H. unfold mini_file_section_new.
  now rewrite !succeeds_alloc_nth.
Qed.

Lemma section_data_new_succeeds (al : allocator) (k v : string) :
  succeeds al ->
  mini_file_section_data_new al k v = Some {| key := Some k; value := Some v |}.
Proof.
  intros H. unfold mini_file_section_data_new.
  now rewrite !succeeds_alloc_nth.
Qed.

(** ** The searches *)

Lemma find_section_from_found l i n j :
  find_section_from l i n = Done (Some j) ->
  exists k sec, j = (i + k)%nat /\ nth_error l k = Some sec /\ name sec = Some n.
Proof.
  revert i. induction l as [|s l IH]; intros i H; simpl in H.
  - discriminate.
  - destruct (name s) as [m|] eqn:Hm; [|discriminate].
    destruct (strcmp m n =? 0)%Z eqn:E.
    + apply strcmp_zero in E. subst m. injection H as <-.
      exists 0%nat, s. rewrite Nat.add_0_r. auto.
    + apply IH in H as (k & sec & -> & Hk & Hn).
      exists (S k), sec. split; [lia | auto].
Qed.

Lemma find_section_from_missing l i n :
  find_section_from l i n = Done None ->
  names_ok l /\ ~ In (Some n) (map name l).
Proof.
  revert i. induction l as [|s l IH]; intros i H; simpl in H.
  - split; [constructor | intros []].
  - destruct (name s) as [m|] eqn:Hm; [|discriminate].
    destruct (strcmp m n =? 0)%Z eqn:E; [discriminate|].
    apply IH in H as [Hok Hin]. split.
    + constructor; [congruence | exact Hok].
    + simpl. intros [Heq | Hin']; [|contradiction].
      rewrite Hm in Heq. injection Heq as ->.
      rewrite strcmp_refl in E. discriminate.
Qed.

Lemma find_section_from_absent l i n :
  names_ok l -> ~ In (Some n) (map name l) ->
  find_section_from l i n = Done None.
Proof.
  revert i. induction l as [|s l IH]; intros i Hok Hin; simpl.
  - reflexivity.
  - inversion Hok as [|? ? Hs Hl]; subst.
    destruct (name s) as [m|] eqn:Hm; [|congruence].
    simpl in Hin. rewrite strcmp_diff.
    + apply IH; [exact Hl | tauto].
    + intros ->. apply Hin. left. now rewrite Hm.
Qed.

Lemma find_section_from_present l i n :
  names_ok l -> In (Some n) (map name l) ->
  exists k sec, find_section_from l i n = Done (Some (i + k)%nat) /\
                nth_error l k = Some sec /\ name sec = Some n.
Proof.
  revert i. induction l as [|s l IH]; intros i Hok Hin; simpl.
  - destruct Hin.
  - inversion Hok as [|? ? Hs Hl]; subst.
    destruct (name s) as [m|] eqn:Hm; [|congruence].
    destruct (strcmp m n =? 0)%Z eqn:E.
    + apply strcmp_zero in E. subst m.
      exists 0%nat, s. rewrite Nat.add_0_r. auto.
    + simpl in Hin. destruct Hin as [Heq | Hin].
      * rewrite Hm in Heq. injection Heq as ->.
        rewrite strcmp_refl in E. discriminate.
      * destruct (IH (S i) Hl Hin) as (k & sec & Hf & Hk & Hn).
        exists (S k), sec. rewrite Hf.
        replace (i + S k)%nat with (S i + k)%nat by lia. auto.
Qed.

Lemma find_section_from_defined l i n :
  names_ok l -> exists p, find_section_from l i n = Done p.
Proof.
  revert i. induction l as [|s l IH]; intros i Hok; simpl.
  - eauto.
  - inversion Hok as [|? ? Hs Hl]; subst.
    destruct (name s) as [m|] eqn:Hm; [|congruence].
    destruct (strcmp m n =? 0)%Z; eauto.
Qed.


Lemma find_key_from_found d k e :
  find_key_from d k = Done (Some e) -> In e d /\ key e = Some k.
Proof.
  induction d as [|x d IH]; intros H; simpl in H.
  - discriminate.
  - destruct (key x) as [m|] eqn:Hm; [|discriminate].
    destruct (strcmp m k =? 0)%Z eqn:E.
    + apply strcmp_zero in E. subst m. injection H as <-.
      split; [now left | exact Hm].
    + apply IH in H as [Hin Hk]. split; [now right | exact Hk].
Qed.

Lemma find_key_from_missing d k :
  find_key_from d k = Done None ->
  keys_ok d /\ ~ In (Some k) (map key d).
Proof.
  induction d as [|x d IH]; intros H; simpl in H.
  - split; [constructor | intros []].
  - destruct (key x) as [m|] eqn:Hm; [|discriminate].
    destruct (strcmp m k =? 0)%Z eqn:E; [discriminate|].
    apply IH in H as [Hok Hin]. split.
    + constructor; [congruence | exact Hok].
    + simpl. intros [Heq | Hin']; [|contradiction].
      rewrite Hm in Heq. injection Heq as ->.
      rewrite strcmp_refl in E. discriminate.
Qed.

Lemma find_key_from_absent d k :
  keys_ok d -> ~ In (Some k) (map key d) -> find_key_from d k = Done None.
Proof.
  induction d as [|x d IH]; intros Hok Hin; simpl.
  - reflexivity.
  - inversion Hok as [|? ? Hx Hd]; subst.
    destruct (key x) as [m|] eqn:Hm; [|congruence].
    simpl in Hin. rewrite strcmp_diff.
    + apply IH; [exact Hd | tauto].
    + intros ->. apply Hin. left. now rewrite Hm.
Qed.

Lemma find_key_from_defined d k :
  keys_ok d -> exists r, find_key_from d k = Done r.
Proof.
  induction d as [|x d IH]; intros Hok; simpl.
  - eauto.
  - inversion Hok as [|? ? Hx Hd]; subst.
    destruct (key x) as [m|] eqn:Hm; [|congruence].
    destruct (strcmp m k =? 0)%Z; eauto.
Qed.

(** ** The counters *)

Lemma int_incr_below_max (i : Z) :
  (CInt.INT_MIN <= i < CInt.INT_MAX)%Z -> CInt.int_incr i = (i + 1)%Z.
Proof.
  unfold CInt.INT_MIN, CInt.INT_MAX, CInt.int_incr. intros Hi.
  rewrite Z.mod_small by lia. lia.
Qed.

Lemma int_incr_at_max : CInt.int_incr CInt.INT_MAX = CInt.INT_MIN.
Proof. reflexivity. Qed.

Lemma to_unsigned_int_incr (i : Z) :
  CInt.to_unsigned (CInt.int_incr i) = ((CInt.to_unsigned i + 1) mod 2 ^ 32)%Z.
Proof.
  unfold CInt.to_unsigned, CInt.int_incr.
  rewrite Zminus_mod_idemp_l, Zplus_mod_idemp_l.
  f_equal. lia.
Qed.

Lemma to_unsigned_range (i : Z) : (0 <= CInt.to_unsigned i < 2 ^ 32)%Z.
Proof. unfold CInt.to_unsigned. apply Z.mod_pos_bound. lia. Qed.

Lemma advance_skipn {A : Type} (l : list A) (i pos : Z) :
  (CInt.to_unsigned i <= pos <= CInt.UINT_MAX)%Z ->
  advance l i pos = skipn (Z.to_nat (pos - CInt.to_unsigned i)) l.
Proof.
  unfold CInt.UINT_MAX. revert i.
  induction l as [|x l IH]; intros i Hi; simpl.
  - now rewrite skipn_nil.
  - pose proof (to_unsigned_range i) as Hr.
    destruct (CInt.to_unsigned i <? pos)%Z eqn:E.
    + apply Z.ltb_lt in E.
      assert (Hs : CInt.to_unsigned (CInt.int_incr i)
                   = (CInt.to_unsigned i + 1)%Z).
      { rewrite to_unsigned_int_incr. apply Z.mod_small. lia. }
      rewrite IH by (rewrite Hs; lia). rewrite Hs.
      replace (Z.to_nat (pos - CInt.to_unsigned i))
        with (S (Z.to_nat (pos - (CInt.to_unsigned i + 1)))) by lia.
      reflexivity.
    + apply Z.ltb_ge in E.
      replace (pos - CInt.to_unsigned i)%Z with 0%Z by lia. reflexivity.
Qed.

Lemma advance_from_zero {A : Type} (l : list A) (pos : Z) :
  CInt.is_uint pos -> advance l 0%Z pos = skipn (Z.to_nat pos) l.
Proof.
  intros [H0 H1]. rewrite advance_skipn.
  - unfold CInt.to_unsigned. rewrite Z.mod_0_l by lia. now rewrite Z.sub_0_r.
  - unfold CInt.to_unsigned. rewrite Z.mod_0_l by lia. lia.
Qed.

Lemma skipn_head {A : Type} (l : list A) (n : nat) :
  match skipn n l with [] => None | x :: _ => Some x end = nth_error l n.
Proof.
  revert l. induction n as [|n IH]; intros [|x l]; simpl; auto.
Qed.

Lemma advance_past_end {A : Type} (l : list A) (pos : Z) :
  CInt.is_uint pos -> (Z.of_nat (List.length l) <= pos)%Z ->
  advance l 0%Z pos = [].
Proof.
  intros Hp Hl. rewrite advance_from_zero by exact Hp.
  apply skipn_all2. lia.
Qed.

Lemma count_nodes_length {A : Type} (l : list A) (num : Z) :
  (0 <= num < 2 ^ 32)%Z ->
  count_nodes l num = ((num + Z.of_nat (List.length l)) mod 2 ^ 32)%Z.
Proof.
  revert num. induction l as [|x l IH]; intros num Hn; simpl count_nodes.
  - simpl. rewrite Z.add_0_r. symmetry. now apply Z.mod_small.
  - rewrite IH by (unfold CInt.uint_incr; apply Z.mod_pos_bound; lia).
    unfold CInt.uint_incr. rewrite Zplus_mod_idemp_l.
    f_equal. simpl List.length. lia.
Qed.

(** ** The mutating calls, case by case *)

Lemma insert_section_existing al mf n i :
  mini_file_find_section mf n = Done (Some i) ->
  mini_file_insert_section al mf n =
  Done (RetSelf, {| file_name := file_name mf; section := section mf;
                    __current_section := Some i |}).
Proof. intros H. unfold mini_file_insert_section. now rewrite H. Qed.

Lemma insert_section_created al mf n :
  mini_file_find_section mf n = Done None -> succeeds al ->
  mini_file_insert_section al mf n =
  Done (RetSelf, {| file_name := file_name mf;
                    section := {| name := Some n; data := [] |} :: section mf;
                    __current_section := Some 0%nat |}).
Proof.
  intros H Hal. unfold mini_file_insert_section.
  rewrite H. simpl. now rewrite section_new_succeeds.
Qed.

(** When [malloc] refuses the node, nothing of the document changes. *)
Lemma insert_section_malloc_fails al mf n :
  mini_file_find_section mf n = Done None -> alloc_nth al 0 = false ->
  mini_file_insert_section al mf n = Done (RetNull, mf).
Proof.
  intros H Hal. unfold mini_file_insert_section, mini_file_section_new.
  rewrite H. simpl. now rewrite Hal.
Qed.

Lemma insert_key_and_value_malloc_fails al mf k v r mf' :
  alloc_nth al 0 = false ->
  mini_file_insert_key_and_value al mf k v = Done (r, mf') -> mf' = mf.
Proof.
  intros Hal. unfold mini_file_insert_key_and_value, mini_file_section_data_new.
  rewrite Hal.
  destruct (section mf) as [|hd rest]; [congruence|].
  destruct (__current_section mf) as [p|]; [|congruence].
  destruct (deref mf p) as [cur|]; simpl; [|discriminate].
  destruct (mini_file_find_key cur k) as [[e|]|]; simpl; congruence.
Qed.

(** What [mini_file_insert_key_and_value] leaves as it was: the file name,
    the cursor, every section but the head, and the head's name. *)
Lemma insert_key_and_value_frame al mf k v r mf' :
  mini_file_insert_key_and_value al mf k v = Done (r, mf') ->
  file_name mf' = file_name mf /\
  __current_section mf' = __current_section mf /\
  map name (section mf') = map name (section mf) /\
  tl (section mf') = tl (section mf).
Proof.
  unfold mini_file_insert_key_and_value.
  destruct (section mf) as [|hd rest] eqn:Hs.
  - intros H. injection H as _ <-. rewrite Hs. auto.
  - destruct (__current_section mf) as [p|] eqn:Hc.
    + destruct (deref mf p) as [cur|]; simpl; [|discriminate].
      destruct (mini_file_find_key cur k) as [[e|]|]; simpl; [| |discriminate].
      * intros H. injection H as _ <-. rewrite Hs, Hc. auto.
      * destruct (mini_file_section_data_new al k v) as [e|].
        -- intros H. injection H as _ <-. simpl. auto.
        -- intros H. injection H as _ <-. rewrite Hs, Hc. auto.
    + intros H. injection H as _ <-. rewrite Hs, Hc. auto.
Qed.

(** The successful insertion of a key the cursor's section does not hold:
    the new entry goes in front of the data of the head section. *)
Lemma insert_key_and_value_prepends al mf k v hd rest p cur :
  section mf = hd :: rest -> __current_section mf = Some p ->
  nth_error (section mf) p = Some cur ->
  find_key_from (data cur) k = Done None -> succeeds al ->
  mini_file_insert_key_and_value al mf k v =
  Done (RetSelf,
        {| file_name := file_name mf;
           section := {| name := name hd;
                         data := {| key := Some k; value := Some v |}
                                 :: data hd |} :: rest;
           __current_section := Some p |}).
Proof.
  intros Hs Hc Hn Hf Hal. unfold mini_file_insert_key_and_value, deref.
  rewrite Hs, Hc. rewrite Hs in Hn. rewrite Hn. simpl.
  unfold mini_file_find_key. rewrite Hf. simpl.
  now rewrite section_data_new_succeeds.
Qed.

(** The insertion of a key the cursor's section already holds. *)
Lemma insert_key_and_value_duplicate al mf k v hd rest p cur e :
  section mf = hd :: rest -> __current_section mf = Some p ->
  nth_error (section mf) p = Some cur ->
  find_key_from (data cur) k = Done (Some e) ->
  mini_file_insert_key_and_value al mf k v = Done (RetSelf, mf).
Proof.
  intros Hs Hc Hn Hf. unfold mini_file_insert_key_and_value, deref.
  rewrite Hs, Hc. rewrite Hs in Hn. rewrite Hn. simpl.
  unfold mini_file_find_key. now rewrite Hf.
Qed.

(** ** Invariants of the reachable documents *)

Lemma names_ok_no_null l : names_ok l -> ~ In None (map name l).
Proof.
  intros Hok Hin. apply in_map_iff in Hin as (s & Hs & Hin).
  unfold names_ok in Hok. rewrite Forall_forall in Hok.
  now apply (Hok s Hin).
Qed.

Lemma insert_section_names al mf n r mf' :
  mini_file_insert_section al mf n = Done (r, mf') ->
  section mf' = section mf \/
  exists s, section mf' = s :: section mf /\
            names_ok (section mf) /\
            ~ In (name s) (section_names mf) /\
            __current_section mf' = Some 0%nat /\ r = RetSelf /\
            (name s = Some n \/ name s = None).
Proof.
  unfold mini_file_insert_section, mini_file_find_section.
  destruct (find_section_from (section mf) 0 n) as [[i|]|] eqn:Hf;
    simpl; [| |discriminate].
  - intros H. injection H as _ <-. now left.
  - apply find_section_from_missing in Hf as [Hok Hin].
    unfold mini_file_section_new.
    destruct (alloc_nth al 0).
    + intros H. injection H as <- <-. right.
      eexists. split; [reflexivity|]. simpl.
      split; [exact Hok|].
      unfold strdup. destruct (alloc_nth al 1).
      * repeat split; auto.
      * repeat split; auto. now apply names_ok_no_null.
    + intros H. injection H as _ <-. now left.
Qed.

Lemma reachable_names_nodup mf : reachable mf -> NoDup (section_names mf).
Proof.
  unfold section_names.
  induction 1 as [junk al fname mf Hnew | mf o r mf' Hr IH Hstep].
  - unfold mini_file_new in Hnew.
    destruct (alloc_nth al 0); [|discriminate].
    injection Hnew as <-. constructor.
  - destruct o as [al n | al k v]; simpl in Hstep.
    + apply insert_section_names in Hstep as [-> | (s & -> & _ & Hin & _)].
      * exact IH.
      * simpl. constructor; assumption.
    + apply insert_key_and_value_frame in Hstep as (_ & _ & -> & _).
      exact IH.
Qed.

Lemma reachable_cursor_ok mf : reachable mf -> cursor_ok mf.
Proof.
  induction 1 as [junk al fname mf Hnew | mf o r mf' Hr IH Hstep].
  - unfold mini_file_new in Hnew.
    destruct (alloc_nth al 0); [|discriminate].
    injection Hnew as <-. now left.
  - destruct o as [al n | al k v]; simpl in Hstep.
    + unfold mini_file_insert_section, mini_file_find_section in Hstep.
      destruct (find_section_from (section mf) 0 n) as [[i|]|] eqn:Hf;
        simpl in Hstep; [| |discriminate].
      * injection Hstep as _ <-. right. exists i. split; [reflexivity|].
        apply find_section_from_found in Hf as (j & sec & -> & Hn & _).
        simpl. apply nth_error_Some. congruence.
      * destruct (mini_file_section_new al n) as [s|].
        -- injection Hstep as _ <-. right. exists 0%nat. simpl.
           split; [reflexivity | lia].
        -- injection Hstep as _ <-. exact IH.
    + apply insert_key_and_value_frame in Hstep as (_ & Hc & Hn & _).
      apply (f_equal (@List.length _)) in Hn. rewrite !length_map in Hn.
      destruct IH as [He | (i & Hi & Hlt)].
      * left. rewrite He in Hn. simpl in Hn.
        now apply length_zero_iff_nil.
      * right. exists i. rewrite Hc, Hn. auto.
Qed.

Lemma reachable_run mf ops mf' :
  reachable mf -> run mf ops = Done mf' -> reachable mf'.
Proof.
  revert mf. induction ops as [|o ops IH]; intros mf Hr H; simpl in H.
  - now injection H as <-.
  - destruct (step mf o) as [[r mf1]|] eqn:Hs; simpl in H; [|discriminate].
    eapply IH; [|exact H]. eapply reach_step; eauto.
Qed.

Lemma fresh_cfg_reachable : reachable fresh_cfg.
Proof. now apply (reach_new None no_failure "cfg"%string). Qed.

(** Once the strings are all there and the cursor is in place, the
    insertion of an entry has a defined outcome. *)
Lemma insert_key_and_value_defined al mf k v :
  cursor_ok mf -> strings_ok mf ->
  exists r mf', mini_file_insert_key_and_value al mf k v = Done (r, mf').
Proof.
  intros Hc [_ Hk]. unfold mini_file_insert_key_and_value.
  destruct Hc as [-> | (i & -> & Hlt)]; [eauto|].
  destruct (section mf) as [|hd rest] eqn:Hs; [eauto|].
  unfold deref. rewrite Hs.
  destruct (nth_error (hd :: rest) i) as [cur|] eqn:Hn.
  - simpl. unfold mini_file_find_key.
    rewrite Forall_forall in Hk.
    destruct (find_key_from_defined (data cur) k) as [f Hf].
    { apply Hk. eapply nth_error_In; eauto. }
    rewrite Hf. simpl. destruct f; [eauto|].
    destruct (mini_file_section_data_new al k v); eauto.
  - apply nth_error_None in Hn. lia.
Qed.

(** ** Selecting a section *)

(** Selecting a name the document holds: no allocation is asked for, the
    section list is as it was and the cursor is on a section of that name. *)
Lemma insert_section_present al mf n :
  names_ok (section mf) -> In (Some n) (section_names mf) ->
  exists i sec,
    mini_file_insert_section al mf n =
    Done (RetSelf, {| file_name := file_name mf; section := section mf;
                      __current_section := Some i |}) /\
    mini_file_find_section mf n = Done (Some i) /\
    nth_error (section mf) i = Some sec /\ name sec = Some n.
Proof.
  intros Hok Hin.
  destruct (find_section_from_present (section mf) 0 n Hok Hin)
    as (i & sec & Hf & Hn & Hs).
  exists i, sec. simpl in Hf.
  rewrite (insert_section_existing al mf n i Hf). auto.
Qed.

Lemma insert_section_selects al mf n :
  names_ok (section mf) -> succeeds al ->
  exists mf' i sec,
    mini_file_insert_section al mf n = Done (RetSelf, mf') /\
    __current_section mf' = Some i /\
    mini_file_find_section mf' n = Done (Some i) /\
    nth_error (section mf') i = Some sec /\ name sec = Some n /\
    names_ok (section mf') /\
    (section mf' = section mf \/
     section mf' = {| name := Some n; data := [] |} :: section mf /\
     ~ In (Some n) (section_names mf)).
Proof.
  intros Hok Hal.
  destruct (find_section_from_defined (section mf) 0 n Hok) as [[i|] Hf].
  - pose proof Hf as Hf'.
    apply find_section_from_found in Hf' as (j & sec & -> & Hn & Hs).
    eexists _, j, sec.
    rewrite (insert_section_existing al mf n j Hf). simpl.
    split; [reflexivity|]. split; [reflexivity|].
    split; [exact Hf|]. split; [exact Hn|]. split; [exact Hs|].
    split; [exact Hok | now left].
  - pose proof Hf as Hf'. apply find_section_from_missing in Hf' as [_ Hin].
    eexists _, 0%nat, _.
    rewrite (insert_section_created al mf n Hf Hal). simpl.
    split; [reflexivity|]. split; [reflexivity|].
    split; [unfold mini_file_find_section; simpl; now rewrite strcmp_refl|].
    split; [reflexivity|]. split; [reflexivity|].
    split; [constructor; [discriminate | exact Hok] | right; auto].
Qed.

(** ** Insertion before any section exists (C6) *)

(** C6. On a document without any section, whatever its cursor holds and
    whatever the allocator would answer, [mini_file_insert_key_and_value]
    returns [NULL] and the document is the one it was given. *)
Theorem insert_key_and_value_without_section :
  forall (al : allocator) (mf : MiniFile) (k v : string),
    section mf = [] ->
    mini_file_insert_key_and_value al mf k v = Done (RetNull, mf).
Proof.
  intros al mf k v Hs. unfold mini_file_insert_key_and_value.
  now rewrite Hs.
Qed.

Lemma insert_key_and_value_without_section_witness :
  mini_file_new (Some 7%nat) no_failure (Some "cfg"%string) = Some junk_cfg /\
  mini_file_insert_key_and_value no_failure junk_cfg "k" "v"
  = Done (RetNull, junk_cfg).
Proof.
  split; [reflexivity|].
  apply (insert_key_and_value_without_section no_failure junk_cfg "k" "v").
  reflexivity.
Defined.

(** ** Who moves the cursor (C9) *)

(** C9. Every call of [mini_file_insert_section] that names a section the
    document already holds, whatever the allocator would answer, and every
    call whose allocations are served, returns the document with the cursor
    on a section of the selected name; in the first case the section list
    is as it was.  The section names of the document are all stored.
    [mini_file_insert_key_and_value] never changes the cursor, on any
    document and whatever it returns.  The queries store nothing: they are
    functions of the document. *)
Theorem cursor_set_by_selection_only :
  (forall (mf : MiniFile) (al : allocator) (n : string),
      names_ok (section mf) ->
      In (Some n) (section_names mf) ->
      exists i sec,
        mini_file_insert_section al mf n =
        Done (RetSelf, {| file_name := file_name mf; section := section mf;
                          __current_section := Some i |}) /\
        nth_error (section mf) i = Some sec /\ name sec = Some n) /\
  (forall (mf : MiniFile) (al : allocator) (n : string),
      names_ok (section mf) ->
      succeeds al ->
      exists mf' i sec,
        mini_file_insert_section al mf n = Done (RetSelf, mf') /\
        __current_section mf' = Some i /\
        nth_error (section mf') i = Some sec /\ name sec = Some n) /\
  (forall (al : allocator) (mf : MiniFile) (k v : string) (r : retptr)
          (mf' : MiniFile),
      mini_file_insert_key_and_value al mf k v = Done (r, mf') ->
      __current_section mf' = __current_section mf).
Proof.
  split; [|split].
  - intros mf al n Hok Hin.
    destruct (insert_section_present al mf n Hok Hin)
      as (i & sec & H & _ & Hn & Hs).
    exists i, sec. auto.
  - intros mf al n Hok Hal.
    destruct (insert_section_selects al mf n Hok Hal)
      as (mf' & i & sec & H & Hc & _ & Hn & Hs & _).
    exists mf', i, sec. auto.
  - intros al mf k v r mf' H.
    now apply insert_key_and_value_frame in H as (_ & Hc & _).
Qed.

Lemma cursor_set_by_selection_only_witness :
  (exists i sec,
      mini_file_insert_section [false; false] doc_B_A "A" =
      Done (RetSelf, {| file_name := file_name doc_B_A;
                        section := section doc_B_A;
                        __current_section := Some i |}) /\
      nth_error (section doc_B_A) i = Some sec /\
      name sec = Some "A"%string) /\
  (exists mf' i sec,
      mini_file_insert_section no_failure doc_B_A "C" = Done (RetSelf, mf') /\
      __current_section mf' = Some i /\
      nth_error (section mf') i = Some sec /\ name sec = Some "C"%string) /\
  __current_section doc_B_A = __current_section doc_B_A.
Proof.
  assert (Hok : names_ok (section doc_B_A))
    by (repeat constructor; discriminate).
  destruct cursor_set_by_selection_only as (H1 & H2 & H3).
  split; [|split].
  - apply (H1 doc_B_A [false; false] "A"%string Hok). simpl. auto.
  - apply (H2 doc_B_A no_failure "C"%string Hok). reflexivity.
  - apply (H3 [false] doc_B_A "k"%string "v"%string RetNull doc_B_A).
    reflexivity.
Defined.

(** ** The section list under insertion of entries (C10) *)

(** C10. Whatever [mini_file_insert_key_and_value] returns, the section
    list has the same names in the same order, hence the same length, as
    before the call; and on a reachable document whose strings are all
    stored the call does have an outcome. *)
Theorem insert_key_and_value_keeps_sections :
  forall (al : allocator) (mf : MiniFile) (k v : string),
    (forall (r : retptr) (mf' : MiniFile),
        mini_file_insert_key_and_value al mf k v = Done (r, mf') ->
        section_names mf' = section_names mf /\
        List.length (section mf') = List.length (section mf) /\
        mini_file_get_number_of_sections mf'
        = mini_file_get_number_of_sections mf) /\
    (reachable mf -> strings_ok mf ->
     exists r mf', mini_file_insert_key_and_value al mf k v = Done (r, mf')).
Proof.
  intros al mf k v. split.
  - intros r mf' H.
    apply insert_key_and_value_frame in H as (_ & _ & Hn & _).
    assert (Hl : List.length (section mf') = List.length (section mf)).
    { apply (f_equal (@List.length _)) in Hn. now rewrite !length_map in Hn. }
    split; [exact Hn|]. split; [exact Hl|].
    unfold mini_file_get_number_of_sections.
    rewrite !count_nodes_length by lia. now rewrite Hl.
  - intros Hr Hs. apply insert_key_and_value_defined; [|exact Hs].
    now apply reachable_cursor_ok.
Qed.

Lemma insert_key_and_value_keeps_sections_witness :
  exists mf',
    mini_file_insert_key_and_value no_failure doc_B_A "k" "v"
    = Done (RetSelf, mf') /\
    section_names mf' = [Some "B"; Some "A"]%string.
Proof.
  eexists. split; [reflexivity|].
  apply (proj1 (insert_key_and_value_keeps_sections
                  no_failure doc_B_A "k" "v") RetSelf).
  reflexivity.
Defined.

(** ** Lookups of what is not there (C7) *)

Lemma get_value_missing mf s k :
  strings_ok mf ->
  (forall sec, In sec (section mf) -> name sec = Some s ->
               ~ In (Some k) (keys_of sec)) ->
  mini_file_get_value mf s k = Done None.
Proof.
  intros [Hn Hk] Hmiss. unfold mini_file_get_value, mini_file_find_section.
  destruct (find_section_from_defined (section mf) 0 s Hn) as [[i|] Hf];
    rewrite Hf; simpl; [|reflexivity].
  apply find_section_from_found in Hf as (j & sec & -> & Hj & Hs).
  unfold deref. simpl. rewrite Hj. simpl.
  apply nth_error_In in Hj. rewrite Forall_forall in Hk.
  unfold mini_file_find_key.
  now rewrite (find_key_from_absent (data sec) k (Hk sec Hj) (Hmiss sec Hj Hs)).
Qed.

Lemma get_key_missing mf s pos :
  strings_ok mf -> CInt.is_uint pos ->
  (forall sec, In sec (section mf) -> name sec = Some s ->
               (Z.of_nat (List.length (data sec)) <= pos)%Z) ->
  mini_file_get_key mf s pos = Done None.
Proof.
  intros [Hn Hk] Hp Hmiss. unfold mini_file_get_key, mini_file_find_section.
  destruct (find_section_from_defined (section mf) 0 s Hn) as [[i|] Hf];
    rewrite Hf; simpl; [|reflexivity].
  apply find_section_from_found in Hf as (j & sec & -> & Hj & Hs).
  unfold deref. simpl. rewrite Hj. simpl.
  apply nth_error_In in Hj.
  now rewrite (advance_past_end (data sec) pos Hp (Hmiss sec Hj Hs)).
Qed.

Lemma no_section_named mf s :
  ~ In (Some s) (section_names mf) ->
  forall sec, In sec (section mf) -> name sec = Some s -> False.
Proof.
  intros Hnot sec Hin Hs. apply Hnot. rewrite <- Hs.
  unfold section_names. now apply in_map.
Qed.

(** C7. On every document whose strings are all stored, a query for what is
    not there returns [NULL] and has no other outcome:
    [mini_file_get_value] for a section name or for a key the document does
    not hold, [mini_file_get_key] for a section name it does not hold or for
    a position at or past the number of keys of the section, and
    [mini_file_get_section] for a position at or past the number of
    sections. *)
Theorem missing_lookups_return_null :
  forall mf : MiniFile,
    strings_ok mf ->
    (forall s k : string,
        ~ In (Some s) (section_names mf) ->
        mini_file_get_value mf s k = Done None) /\
    (forall s k : string,
        (forall sec, In sec (section mf) -> name sec = Some s ->
                     ~ In (Some k) (keys_of sec)) ->
        mini_file_get_value mf s k = Done None) /\
    (forall (s : string) (pos : Z),
        CInt.is_uint pos ->
        ~ In (Some s) (section_names mf) ->
        mini_file_get_key mf s pos = Done None) /\
    (forall (s : string) (pos : Z),
        CInt.is_uint pos ->
        (forall sec, In sec (section mf) -> name sec = Some s ->
                     (Z.of_nat (List.length (data sec)) <= pos)%Z) ->
        mini_file_get_key mf s pos = Done None) /\
    (forall pos : Z,
        CInt.is_uint pos ->
        (Z.of_nat (List.length (section mf)) <= pos)%Z ->
        mini_file_get_section mf pos = None).
Proof.
  intros mf Hok. repeat split.
  - intros s k Hnot. apply get_value_missing; [exact Hok|].
    intros sec Hin Hs. exfalso. eapply no_section_named; eauto.
  - intros s k Hmiss. now apply get_value_missing.
  - intros s pos Hp Hnot. apply get_key_missing; [exact Hok | exact Hp |].
    intros sec Hin Hs. exfalso. eapply no_section_named; eauto.
  - intros s pos Hp Hmiss. now apply get_key_missing.
  - intros pos Hp Hl. unfold mini_file_get_section.
    now rewrite (advance_past_end (section mf) pos Hp Hl).
Qed.

Lemma missing_lookups_return_null_witness :
  mini_file_get_value doc_A_k "nope" "k" = Done None /\
  mini_file_get_value doc_A_k "A" "nope" = Done None /\
  mini_file_get_key doc_A_k "nope" 0 = Done None /\
  mini_file_get_key doc_A_k "A" 99 = Done None /\
  mini_file_get_section doc_A_k 99 = None.
Proof.
  assert (Hok : strings_ok doc_A_k)
    by (split; repeat constructor; discriminate).
  destruct (missing_lookups_return_null doc_A_k Hok)
    as (H1 & H2 & H3 & H4 & H5).
  split; [|split; [|split; [|split]]].
  - apply H1. simpl. intros [E|[]]. discriminate.
  - apply H2. simpl. intros sec [<-|[]] _ [E|[]]. discriminate.
  - apply H3; [unfold CInt.is_uint, CInt.UINT_MAX; lia|].
    simpl. intros [E|[]]. discriminate.
  - apply H4; [unfold CInt.is_uint, CInt.UINT_MAX; lia|].
    simpl. intros sec [<-|[]] _. simpl. lia.
  - apply H5; [unfold CInt.is_uint, CInt.UINT_MAX; lia|]. simpl. lia.
Defined.

(** ** First write wins (C3) *)



(** ** Idempotent selection, distinct names (C5) *)

Lemma sections_named_none l n :
  ~ In (Some n) (map name l) ->
  filter (fun s => match name s with
                   | Some m => String.eqb m n
                   | None => false
                   end) l = [].
Proof.
  induction l as [|s l IH]; intros Hin; simpl; [reflexivity|].
  simpl in Hin. destruct (name s) as [m|] eqn:Hm.
  - destruct (String.eqb m n) eqn:E.
    + apply String.eqb_eq in E. subst m. tauto.
    + apply IH. tauto.
  - apply IH. tauto.
Qed.

Lemma sections_named_once l n :
  NoDup (map name l) -> In (Some n) (map name l) ->
  List.length (filter (fun s => match name s with
                                | Some m => String.eqb m n
                                | None => false
                                end) l) = 1%nat.
Proof.
  induction l as [|s l IH]; intros Hnd Hin; simpl in *; [destruct Hin|].
  inversion Hnd as [|? ? Hnotin Hnd']; subst.
  destruct (name s) as [m|] eqn:Hm.
  - destruct (String.eqb m n) eqn:E.
    + apply String.eqb_eq in E. subst m.
      now rewrite (sections_named_none l n Hnotin).
    + apply String.eqb_neq in E. apply IH; [exact Hnd'|].
      destruct Hin as [Heq|Hin]; [congruence | exact Hin].
  - apply IH; [exact Hnd'|].
    destruct Hin as [Heq|Hin]; [discriminate | exact Hin].
Qed.

(** C5. On every reachable document the section names are pairwise
    distinct.  When its names are all stored, a selection whose allocations
    are served returns the document; selecting the same name again, whatever
    the allocator, returns the document and leaves it exactly as it was;
    the document then holds one section of that name; and if it had no
    section before, [mini_file_get_number_of_sections] is 1. *)
Theorem section_selection_idempotent :
  forall mf : MiniFile,
    reachable mf ->
    NoDup (section_names mf) /\
    (forall (al1 al2 : allocator) (n : string),
        names_ok (section mf) -> succeeds al1 ->
        exists mf1,
          mini_file_insert_section al1 mf n = Done (RetSelf, mf1) /\
          mini_file_insert_section al2 mf1 n = Done (RetSelf, mf1) /\
          List.length (sections_named n mf1) = 1%nat /\
          (section mf = [] -> mini_file_get_number_of_sections mf1 = 1%Z)).
Proof.
  intros mf Hr. split; [now apply reachable_names_nodup|].
  intros al1 al2 n Hok Hal.
  destruct (insert_section_selects al1 mf n Hok Hal)
    as (mf1 & i & sec & H1 & Hc & Hf & Hn & Hs & _ & Hcase).
  exists mf1. split; [exact H1|]. split; [|split].
  - rewrite (insert_section_existing al2 mf1 n i Hf).
    destruct mf1 as [f l c]. simpl in Hc. now rewrite Hc.
  - apply sections_named_once.
    + apply (reachable_names_nodup mf1).
      apply (reach_step mf (SelectSection al1 n) RetSelf mf1 Hr H1).
    + rewrite <- Hs. apply in_map. eapply nth_error_In; eauto.
  - intros He. unfold mini_file_get_number_of_sections.
    destruct Hcase as [Hsame | [Hnew _]].
    + rewrite Hsame, He in Hn. destruct i; discriminate.
    + now rewrite Hnew, He.
Qed.

Lemma section_selection_idempotent_witness :
  exists mf1,
    mini_file_insert_section no_failure fresh_cfg "A" = Done (RetSelf, mf1) /\
    mini_file_insert_section [false] mf1 "A" = Done (RetSelf, mf1) /\
    List.length (sections_named "A" mf1) = 1%nat /\
    (section fresh_cfg = [] -> mini_file_get_number_of_sections mf1 = 1%Z).
Proof.
  apply (proj2 (section_selection_idempotent fresh_cfg fresh_cfg_reachable)
               no_failure [false] "A"%string).
  - constructor.
  - reflexivity.
Defined.

(** ** Enumeration order (C4) *)

Lemma get_section_nth mf pos :
  CInt.is_uint pos ->
  mini_file_get_section mf pos =
  match nth_error (section mf) (Z.to_nat pos) with
  | Some sec => name sec
  | None => None
  end.
Proof.
  intros Hp. unfold mini_file_get_section.
  rewrite advance_from_zero by exact Hp.
  rewrite <- skipn_head. now destruct (skipn (Z.to_nat pos) (section mf)).
Qed.

Lemma get_key_nth mf s pos i sec :
  mini_file_find_section mf s = Done (Some i) ->
  nth_error (section mf) i = Some sec ->
  CInt.is_uint pos ->
  mini_file_get_key mf s pos =
  Done match nth_error (data sec) (Z.to_nat pos) with
       | Some d => key d
       | None => None
       end.
Proof.
  intros Hf Hn Hp. unfold mini_file_get_key, deref.
  rewrite Hf. simpl. rewrite Hn. simpl.
  rewrite advance_from_zero by exact Hp.
  rewrite <- skipn_head. now destruct (skipn (Z.to_nat pos) (data sec)).
Qed.







(** ** The construction scenario of the specification *)

Example round_trip_scenario :
  exists mf,
    run fresh_cfg ops_round_trip = Done mf /\
    mini_file_get_number_of_sections mf = 2%Z /\
    mini_file_get_number_of_keys mf "server" = Done 2%Z /\
    mini_file_get_value mf "server" "host" = Done (Some "localhost"%string) /\
    mini_file_get_value mf "client" "timeout" = Done (Some "30"%string) /\
    mini_file_get_value mf "server" "timeout" = Done None.
Proof.
  eexists. split; [vm_compute; reflexivity|].
  repeat split; vm_compute; reflexivity.
Qed.

(** ** The section an entry lands in (C1) *)

(** C1. After sections "A" then "B" are created and "A" is selected again,
    the cursor is on "A", the second section of the list, which does not
    hold the key "k".  The insertion of ("k", "v") with every allocation
    served returns the document, and the entry is in the head section "B":
    [mini_file_get_value] finds no "k" in "A" and finds "v" in "B". *)
Theorem insert_key_and_value_writes_head_section :
  exists mf mf',
    run fresh_cfg ops_A_B_A = Done mf /\
    section_names mf = [Some "B"; Some "A"]%string /\
    __current_section mf = Some 1%nat /\
    mini_file_get_value mf "A" "k" = Done None /\
    mini_file_insert_key_and_value no_failure mf "k" "v"
    = Done (RetSelf, mf') /\
    mini_file_get_value mf' "A" "k" = Done None /\
    mini_file_get_value mf' "B" "k" = Done (Some "v"%string).
Proof.
  eexists. eexists.
  split; [vm_compute; reflexivity|].
  split; [reflexivity|]. split; [reflexivity|]. split; [reflexivity|].
  split; [vm_compute; reflexivity|].
  split; vm_compute; reflexivity.
Qed.

(** ** Keys of a section (C2) *)

(** C2. The document built by creating "A" then "B", selecting "A" again
    and inserting the key "k" twice is reachable, both insertions return
    the document, and its head section "B" holds the key "k" twice. *)
Theorem duplicate_key_reachable :
  exists mf sec,
    run fresh_cfg ops_A_B_A_k_k = Done mf /\
    reachable mf /\
    In sec (section mf) /\
    name sec = Some "B"%string /\
    keys_of sec = [Some "k"; Some "k"]%string /\
    ~ NoDup (keys_of sec).
Proof.
  assert (Hrun : run fresh_cfg ops_A_B_A_k_k =
                 Done {| file_name := Some "cfg"%string;
                         section :=
                           [ {| name := Some "B"%string;
                                data := [ entry_of ("k", "v2")%string;
                                          entry_of ("k", "v1")%string ] |};
                             {| name := Some "A"%string; data := [] |} ];
                         __current_section := Some 1%nat |})
    by (vm_compute; reflexivity).
  eexists. eexists. split; [exact Hrun|].
  split; [exact (reachable_run _ _ _ fresh_cfg_reachable Hrun)|].
  split; [left; reflexivity|].
  split; [reflexivity|]. split; [reflexivity|].
  simpl. intros Hnd. inversion Hnd as [|? ? Hnotin _]; subst.
  apply Hnotin. now left.
Qed.

(** ** Allocation failure (C8) *)

(** When [malloc] refuses the node, both mutating calls leave the document
    as it was. *)
Lemma node_allocation_failure al mf :
  alloc_nth al 0 = false ->
  (forall n r mf',
      mini_file_insert_section al mf n = Done (r, mf') ->
      mini_file_find_section mf n = Done None ->
      r = RetNull /\ mf' = mf) /\
  (forall k v r mf',
      mini_file_insert_key_and_value al mf k v = Done (r, mf') -> mf' = mf).
Proof.
  intros Hal. split.
  - intros n r mf' H Hf.
    rewrite (insert_section_malloc_fails al mf n Hf Hal) in H.
    now injection H as <- <-.
  - intros k v r mf' H.
    exact (insert_key_and_value_malloc_fails al mf k v r mf' Hal H).
Qed.

(** C8. When [malloc] serves the node and [strdup] refuses its first
    string, [mini_file_insert_section] returns the document with a section
    without name at the head of the list and the cursor on it, and
    [mini_file_insert_key_and_value] returns the document with an entry
    without key at the head of the section; a later search that reaches such
    a node hands [NULL] to [strcmp]. *)
Theorem strdup_failure_links_partial_node :
  mini_file_insert_section first_strdup_fails fresh_cfg "A" =
  Done (RetSelf, {| file_name := Some "cfg"%string;
                    section := [ {| name := None; data := [] |} ];
                    __current_section := Some 0%nat |}) /\
  mini_file_insert_key_and_value first_strdup_fails doc_A "k" "v" =
  Done (RetSelf, {| file_name := Some "cfg"%string;
                    section := [ {| name := Some "A"%string;
                                    data := [ {| key := None;
                                                 value := Some "v"%string |} ]
                                 |} ];
                    __current_section := Some 0%nat |}) /\
  mini_file_insert_section no_failure
    {| file_name := Some "cfg"%string;
       section := [ {| name := None; data := [] |} ];
       __current_section := Some 0%nat |} "B" = Undefined.
Proof. repeat split. Qed.

(** ** Documents built while every allocation is served *)

Lemma step_strings_ok mf o r mf' :
  strings_ok mf -> succeeds (op_allocator o) ->
  step mf o = Done (r, mf') -> strings_ok mf'.
Proof.
  intros [Hn Hk] Hal H. destruct o as [al n | al k v]; simpl in *.
  - destruct (insert_section_selects al mf n Hn Hal)
      as (mf1 & i & sec & H1 & _ & _ & _ & _ & Hok' & Hcase).
    rewrite H1 in H. injection H as _ <-. split; [exact Hok'|].
    destruct Hcase as [Hs | [Hs _]]; rewrite Hs.
    + exact Hk.
    + constructor; [constructor | exact Hk].
  - unfold mini_file_insert_key_and_value in H.
    destruct (section mf) as [|hd rest] eqn:Hs.
    { injection H as _ <-. unfold strings_ok. rewrite Hs. now split. }
    destruct (__current_section mf) as [p|].
    2:{ injection H as _ <-. unfold strings_ok. rewrite Hs. now split. }
    destruct (deref mf p) as [cur|]; simpl in H; [|discriminate].
    destruct (mini_file_find_key cur k) as [[e|]|]; simpl in H;
      [| |discriminate].
    + injection H as _ <-. unfold strings_ok. rewrite Hs. now split.
    + rewrite (section_data_new_succeeds al k v Hal) in H.
      injection H as _ <-. unfold strings_ok. simpl.
      inversion Hn as [|? ? Hhd Hrest]; subst.
      inversion Hk as [|? ? Khd Krest]; subst.
      split; constructor; simpl; auto.
      constructor; [discriminate | exact Khd].
Qed.

Lemma step_defined mf o :
  cursor_ok mf -> strings_ok mf -> exists r mf', step mf o = Done (r, mf').
Proof.
  intros Hc Hs. destruct o as [al n | al k v]; simpl.
  - destruct Hs as [Hn _]. unfold mini_file_insert_section.
    destruct (find_section_from_defined (section mf) 0 n Hn) as [p Hf].
    unfold mini_file_find_section. rewrite Hf. simpl.
    destruct p; [eauto|]. destruct (mini_file_section_new al n); eauto.
  - now apply insert_key_and_value_defined.
Qed.

(** X12. From a reachable document whose strings are all stored, every
    sequence of mutating calls whose allocations are served runs to its end
    without undefined behaviour, on a document that is again reachable with
    all its strings stored. *)
Lemma run_defined ops : forall mf,
  reachable mf -> strings_ok mf ->
  Forall (fun o => succeeds (op_allocator o)) ops ->
  exists mf', run mf ops = Done mf' /\ reachable mf' /\ strings_ok mf'.
Proof.
  induction ops as [|o ops IH]; intros mf Hr Hs Hal.
  - exists mf. split; [reflexivity | split; assumption].
  - inversion Hal as [|? ? Ho Hops]; subst.
    destruct (step_defined mf o (reachable_cursor_ok mf Hr) Hs)
      as (r & mf1 & Hstep).
    destruct (IH mf1) as (mf' & Hrun & Hr' & Hs').
    + exact (reach_step mf o r mf1 Hr Hstep).
    + exact (step_strings_ok mf o r mf1 Hs Ho Hstep).
    + exact Hops.
    + exists mf'. split; [|now split].
      simpl. rewrite Hstep. exact Hrun.
Qed.

(** * Further properties of the store *)

(** ** The searches, by the shape of the list *)

Lemma find_section_from_names l l' i s :
  map name l = map name l' ->
  find_section_from l i s = find_section_from l' i s.
Proof.
  revert l' i. induction l as [|x l IH]; intros [|y l'] i H; simpl in H;
    try discriminate; [reflexivity|].
  injection H as Hxy Hl. simpl. rewrite Hxy.
  destruct (name y) as [m|]; [|reflexivity].
  destruct (strcmp m s =? 0)%Z; [reflexivity | now apply IH].
Qed.

Lemma find_section_from_shift l i s :
  find_section_from l i s =
  match find_section_from l 0 s with
  | Done (Some j) => Done (Some (i + j)%nat)
  | Done None => Done None
  | Undefined => Undefined
  end.
Proof.
  revert i. induction l as [|x l IH]; intros i; simpl; [reflexivity|].
  destruct (name x) as [m|]; [|reflexivity].
  destruct (strcmp m s =? 0)%Z.
  - now rewrite Nat.add_0_r.
  - rewrite (IH (S i)), (IH 1%nat).
    destruct (find_section_from l 0 s) as [[j|]|]; try reflexivity.
    do 2 f_equal. lia.
Qed.

Lemma find_section_from_app pre sec post i s :
  names_ok pre -> ~ In (Some s) (map name pre) -> name sec = Some s ->
  find_section_from (pre ++ sec :: post) i s
  = Done (Some (i + List.length pre)%nat).
Proof.
  revert i. induction pre as [|x pre IH]; intros i Hok Hin Hs; simpl.
  - now rewrite Hs, strcmp_refl, Nat.add_0_r.
  - inversion Hok as [|? ? Hx Hpre]; subst.
    destruct (name x) as [m|] eqn:Hm; [|congruence].
    simpl in Hin. rewrite strcmp_diff.
    + rewrite IH; [|exact Hpre|tauto|exact Hs]. do 2 f_equal. lia.
    + intros ->. apply Hin. left. now rewrite Hm.
Qed.

Lemma find_key_from_app dpre e dpost k :
  keys_ok dpre -> ~ In (Some k) (map key dpre) -> key e = Some k ->
  find_key_from (dpre ++ e :: dpost) k = Done (Some e).
Proof.
  induction dpre as [|x dpre IH]; intros Hok Hin Hk; simpl.
  - now rewrite Hk, strcmp_refl.
  - inversion Hok as [|? ? Hx Hpre]; subst.
    destruct (key x) as [m|] eqn:Hm; [|congruence].
    simpl in Hin. rewrite strcmp_diff.
    + apply IH; [exact Hpre|tauto|exact Hk].
    + intros ->. apply Hin. left. now rewrite Hm.
Qed.

Lemma find_key_from_present d k :
  keys_ok d -> In (Some k) (map key d) ->
  exists e, find_key_from d k = Done (Some e) /\ In e d /\ key e = Some k.
Proof.
  intros Hok Hin. destruct (find_key_from_defined d k Hok) as [[e|] Hf].
  - exists e. split; [exact Hf|]. now apply find_key_from_found.
  - apply find_key_from_missing in Hf as [_ Hnot]. contradiction.
Qed.

Lemma deref_first_named mf pre sec post :
  section mf = pre ++ sec :: post ->
  deref mf (List.length pre) = Done sec.
Proof.
  intros Hs. unfold deref. rewrite Hs, nth_error_app2 by lia.
  now rewrite Nat.sub_diag.
Qed.

(** ** The counting queries *)

(** X1. [mini_file_get_number_of_sections] is the number of sections
    modulo 2^32, hence the number of sections itself whenever that fits an
    [unsigned int]. *)
Theorem number_of_sections_counts :
  forall mf : MiniFile,
    mini_file_get_number_of_sections mf
    = (Z.of_nat (List.length (section mf)) mod 2 ^ 32)%Z /\
    ((Z.of_nat (List.length (section mf)) <= CInt.UINT_MAX)%Z ->
     mini_file_get_number_of_sections mf
     = Z.of_nat (List.length (section mf))).
Proof.
  intros mf. unfold mini_file_get_number_of_sections.
  rewrite count_nodes_length by lia. rewrite Z.add_0_l.
  split; [reflexivity|]. unfold CInt.UINT_MAX. intros H.
  apply Z.mod_small. lia.
Qed.

Lemma number_of_sections_counts_witness :
  mini_file_get_number_of_sections doc_server_client = 2%Z.
Proof.
  apply (proj2 (number_of_sections_counts doc_server_client)).
  unfold CInt.UINT_MAX. simpl. lia.
Defined.

(** X2. [mini_file_get_number_of_keys] is 0 when no section has the name,
    and otherwise the number of entries, modulo 2^32, of the first section
    of that name; a section without entries is not told apart from a
    missing one.  Only the names in front of that section are read. *)
Theorem number_of_keys_counts :
  forall (mf : MiniFile) (s : string),
    (names_ok (section mf) -> ~ In (Some s) (section_names mf) ->
     mini_file_get_number_of_keys mf s = Done 0%Z) /\
    (forall pre sec post,
        section mf = pre ++ sec :: post ->
        names_ok pre -> ~ In (Some s) (map name pre) -> name sec = Some s ->
        mini_file_get_number_of_keys mf s
        = Done (Z.of_nat (List.length (data sec)) mod 2 ^ 32)%Z /\
        (data sec = [] -> mini_file_get_number_of_keys mf s = Done 0%Z)).
Proof.
  intros mf s. split.
  - intros Hok Hnot. unfold mini_file_get_number_of_keys, mini_file_find_section.
    now rewrite (find_section_from_absent (section mf) 0 s Hok Hnot).
  - intros pre sec post Hs Hok Hnot Hn.
    assert (H : mini_file_get_number_of_keys mf s
                = Done (Z.of_nat (List.length (data sec)) mod 2 ^ 32)%Z).
    { unfold mini_file_get_number_of_keys, mini_file_find_section.
      rewrite Hs, (find_section_from_app pre sec post 0 s Hok Hnot Hn).
      simpl. rewrite (deref_first_named mf pre sec post Hs). simpl.
      rewrite count_nodes_length by lia. now rewrite Z.add_0_l. }
    split; [exact H|]. intros He. rewrite H, He. reflexivity.
Qed.

Lemma number_of_keys_counts_witness :
  mini_file_get_number_of_keys doc_server_client "nope" = Done 0%Z /\
  mini_file_get_number_of_keys doc_server_client "server" = Done 2%Z.
Proof.
  destruct (number_of_keys_counts doc_server_client "nope") as [H0 _].
  destruct (number_of_keys_counts doc_server_client "server") as [_ H1].
  split.
  - apply H0.
    + repeat constructor; discriminate.
    + simpl. intros [E|[E|[]]]; discriminate.
  - apply (H1 [ {| name := Some "client"%string;
                   data := [ entry_of ("timeout", "30")%string ] |} ]
              {| name := Some "server"%string;
                 data := [ entry_of ("port", "8080")%string;
                           entry_of ("host", "localhost")%string ] |} []).
    + reflexivity.
    + repeat constructor; discriminate.
    + simpl. intros [E|[]]; discriminate.
    + reflexivity.
Defined.

(** ** The positional queries *)

(** X3. For every 32-bit position below the number of sections, those past
    [INT_MAX] included, [mini_file_get_section] returns the name stored in
    the section at that position from the head. *)
Theorem get_section_reads_position :
  forall (mf : MiniFile) (pos : Z),
    CInt.is_uint pos ->
    (pos < Z.of_nat (List.length (section mf)))%Z ->
    exists sec,
      nth_error (section mf) (Z.to_nat pos) = Some sec /\
      mini_file_get_section mf pos = name sec.
Proof.
  intros mf pos Hp Hlt. rewrite get_section_nth by exact Hp.
  destruct (nth_error (section mf) (Z.to_nat pos)) as [sec|] eqn:Hn.
  - now exists sec.
  - apply nth_error_None in Hn. destruct Hp. lia.
Qed.

Lemma get_section_reads_position_witness :
  exists sec,
    nth_error (section doc_server_client) (Z.to_nat 1) = Some sec /\
    mini_file_get_section doc_server_client 1 = name sec.
Proof.
  apply (get_section_reads_position doc_server_client 1).
  - unfold CInt.is_uint, CInt.UINT_MAX. lia.
  - simpl. lia.
Defined.

(** X4. [mini_file_get_key] reads the first section of the given name: at a
    32-bit position it returns the key stored in the entry at that position
    of that section, and [NULL] past the last entry.  Only the names in
    front of that section are read. *)
Theorem get_key_reads_position :
  forall (mf : MiniFile) (s : string) (pre : list Section_t) (sec : Section_t)
         (post : list Section_t) (pos : Z),
    section mf = pre ++ sec :: post ->
    names_ok pre -> ~ In (Some s) (map name pre) -> name sec = Some s ->
    CInt.is_uint pos ->
    mini_file_get_key mf s pos =
    Done match nth_error (data sec) (Z.to_nat pos) with
         | Some d => key d
         | None => None
         end.
Proof.
  intros mf s pre sec post pos Hs Hok Hnot Hn Hp.
  apply (get_key_nth mf s pos (List.length pre) sec).
  - unfold mini_file_find_section.
    now rewrite Hs, (find_section_from_app pre sec post 0 s Hok Hnot Hn).
  - rewrite Hs, nth_error_app2 by lia. now rewrite Nat.sub_diag.
  - exact Hp.
Qed.

Lemma get_key_reads_position_witness :
  mini_file_get_key doc_server_client "server" 1 = Done (Some "host"%string).
Proof.
  apply (get_key_reads_position doc_server_client "server"
           [ {| name := Some "client"%string;
                data := [ entry_of ("timeout", "30")%string ] |} ]
           {| name := Some "server"%string;
              data := [ entry_of ("port", "8080")%string;
                        entry_of ("host", "localhost")%string ] |} [] 1).
  - reflexivity.
  - repeat constructor; discriminate.
  - simpl. intros [E|[]]; discriminate.
  - reflexivity.
  - unfold CInt.is_uint, CInt.UINT_MAX. lia.
Defined.

(** ** Lookup by name *)

(** X5. [mini_file_get_value] returns the value of the first entry with the
    given key in the first section with the given name, whatever follows
    that entry and that section in their lists. *)
Theorem get_value_reads_first_match :
  forall (mf : MiniFile) (s k : string) (pre : list Section_t)
         (sec : Section_t) (post : list Section_t)
         (dpre : list SectionData) (e : SectionData) (dpost : list SectionData),
    section mf = pre ++ sec :: post ->
    names_ok pre -> ~ In (Some s) (map name pre) -> name sec = Some s ->
    data sec = dpre ++ e :: dpost ->
    keys_ok dpre -> ~ In (Some k) (map key dpre) -> key e = Some k ->
    mini_file_get_value mf s k = Done (value e).
Proof.
  intros mf s k pre sec post dpre e dpost Hs Hok Hnot Hn Hd Hkok Hknot Hk.
  unfold mini_file_get_value, mini_file_find_section.
  rewrite Hs, (find_section_from_app pre sec post 0 s Hok Hnot Hn). simpl.
  rewrite (deref_first_named mf pre sec post Hs). simpl.
  unfold mini_file_find_key.
  now rewrite Hd, (find_key_from_app dpre e dpost k Hkok Hknot Hk).
Qed.

Lemma get_value_reads_first_match_witness :
  mini_file_get_value doc_server_client "server" "host"
  = Done (Some "localhost"%string).
Proof.
  apply (get_value_reads_first_match doc_server_client "server" "host"
           [ {| name := Some "client"%string;
                data := [ entry_of ("timeout", "30")%string ] |} ]
           {| name := Some "server"%string;
              data := [ entry_of ("port", "8080")%string;
                        entry_of ("host", "localhost")%string ] |} []
           [ entry_of ("port", "8080")%string ]
           (entry_of ("host", "localhost")%string) []).
  - reflexivity.
  - repeat constructor; discriminate.
  - simpl. intros [E|[]]; discriminate.
  - reflexivity.
  - reflexivity.
  - repeat constructor; discriminate.
  - simpl. intros [E|[]]; discriminate.
  - reflexivity.
Defined.

(** X6. A value [mini_file_get_value] returns is stored in the document: in
    an entry with the given key of a section with the given name. *)
Theorem get_value_sound :
  forall (mf : MiniFile) (s k v : string),
    mini_file_get_value mf s k = Done (Some v) ->
    exists sec e,
      In sec (section mf) /\ name sec = Some s /\
      In e (data sec) /\ key e = Some k /\ value e = Some v.
Proof.
  intros mf s k v H. unfold mini_file_get_value, mini_file_find_section in H.
  destruct (find_section_from (section mf) 0 s) as [[i|]|] eqn:Hf;
    simpl in H; try discriminate.
  apply find_section_from_found in Hf as (j & sec & -> & Hj & Hn).
  unfold deref in H. simpl in H. rewrite Hj in H. simpl in H.
  unfold mini_file_find_key in H.
  destruct (find_key_from (data sec) k) as [[e|]|] eqn:Hk;
    simpl in H; try discriminate.
  apply find_key_from_found in Hk as [Hin Hke].
  injection H as Hv. exists sec, e.
  split; [eapply nth_error_In; eauto|]. auto.
Qed.

Lemma get_value_sound_witness :
  exists sec e,
    In sec (section doc_server_client) /\ name sec = Some "client"%string /\
    In e (data sec) /\ key e = Some "timeout"%string /\
    value e = Some "30"%string.
Proof.
  apply (get_value_sound doc_server_client "client" "timeout" "30").
  reflexivity.
Defined.

(** ** What a selection leaves as it was *)

(** A query that searches a section by name and reads it, on a document
    that got a new, empty head section: when the query answers a missing
    section as it answers an empty one, the new section does not show. *)
Lemma lookup_with_new_head {A : Type} (g : Section_t -> outcome A) (d : A)
  (mf mf' : MiniFile) (n s : string) :
  section mf' = section_named n :: section mf ->
  find_section_from (section mf) 0 n = Done None ->
  g (section_named n) = Done d ->
  (p <- mini_file_find_section mf' s ;;
   match p with
   | None => Done d
   | Some i => sec <- deref mf' i ;; g sec
   end) =
  (p <- mini_file_find_section mf s ;;
   match p with
   | None => Done d
   | Some i => sec <- deref mf i ;; g sec
   end).
Proof.
  intros Hs Hf Hg. unfold mini_file_find_section, deref. rewrite Hs. simpl.
  destruct (strcmp n s =? 0)%Z eqn:E.
  - apply strcmp_zero in E. subst s. rewrite Hf. simpl. exact Hg.
  - rewrite (find_section_from_shift (section mf) 1 s).
    destruct (find_section_from (section mf) 0 s) as [[j|]|]; reflexivity.
Qed.

(** X7. A call of [mini_file_insert_section] that leaves every section with
    a stored name changes the answer of no lookup by name: for every section
    name, key and position, [mini_file_get_value], [mini_file_get_key] and
    [mini_file_get_number_of_keys] answer after the call what they answered
    before it.  A section just created answers as a missing one did. *)
Theorem selection_preserves_lookups :
  forall (al : allocator) (mf : MiniFile) (n : string) (r : retptr)
         (mf' : MiniFile),
    mini_file_insert_section al mf n = Done (r, mf') ->
    names_ok (section mf') ->
    forall (s k : string) (pos : Z),
      mini_file_get_value mf' s k = mini_file_get_value mf s k /\
      mini_file_get_key mf' s pos = mini_file_get_key mf s pos /\
      mini_file_get_number_of_keys mf' s = mini_file_get_number_of_keys mf s.
Proof.
  intros al mf n r mf' H Hok s k pos.
  unfold mini_file_insert_section, mini_file_find_section in H.
  destruct (find_section_from (section mf) 0 n) as [[i|]|] eqn:Hf;
    simpl in H; [| |discriminate].
  - injection H as _ <-. repeat split.
  - unfold mini_file_section_new in H. destruct (alloc_nth al 0).
    + injection H as _ <-. simpl in Hok.
      inversion Hok as [|? ? Hname _]; subst. simpl in Hname.
      unfold strdup in *. destruct (alloc_nth al 1); [|congruence].
      split; [|split].
      * apply (lookup_with_new_head
                 (fun sec => found <- mini_file_find_key sec k ;;
                             match found with
                             | None => Done None
                             | Some d => Done (value d)
                             end) None _ _ n s); auto.
      * apply (lookup_with_new_head
                 (fun sec => match advance (data sec) 0%Z pos with
                             | [] => Done None
                             | d :: _ => Done (key d)
                             end) None _ _ n s); auto.
      * apply (lookup_with_new_head
                 (fun sec => Done (count_nodes (data sec) 0%Z)) 0%Z _ _ n s);
          auto.
    + injection H as _ <-. repeat split.
Qed.

Lemma selection_preserves_lookups_witness :
  mini_file_get_value
    {| file_name := file_name doc_A_k;
       section := section_named "B" :: section doc_A_k;
       __current_section := Some 0%nat |} "A" "k"
  = mini_file_get_value doc_A_k "A" "k" /\
  mini_file_get_key
    {| file_name := file_name doc_A_k;
       section := section_named "B" :: section doc_A_k;
       __current_section := Some 0%nat |} "B" 0
  = mini_file_get_key doc_A_k "B" 0 /\
  mini_file_get_number_of_keys
    {| file_name := file_name doc_A_k;
       section := section_named "B" :: section doc_A_k;
       __current_section := Some 0%nat |} "B"
  = mini_file_get_number_of_keys doc_A_k "B".
Proof.
  assert (H : mini_file_insert_section no_failure doc_A_k "B"
              = Done (RetSelf,
                      {| file_name := file_name doc_A_k;
                         section := section_named "B" :: section doc_A_k;
                         __current_section := Some 0%nat |}))
    by reflexivity.
  assert (Hok : names_ok (section_named "B" :: section doc_A_k))
    by (repeat constructor; discriminate).
  pose proof (selection_preserves_lookups no_failure doc_A_k "B" RetSelf _
                H Hok) as P.
  split; [exact (proj1 (P "A" "k" 0%Z)%string)|].
  split; [exact (proj1 (proj2 (P "B" "k" 0%Z)%string))|].
  exact (proj2 (proj2 (P "B" "k" 0%Z)%string)).
Defined.

(** ** What an insertion leaves as it was *)

Lemma advance_names (l l' : list Section_t) (i pos : Z) :
  map name l = map name l' ->
  match advance l i pos with [] => None | sec :: _ => name sec end =
  match advance l' i pos with [] => None | sec :: _ => name sec end.
Proof.
  revert l' i. induction l as [|x l IH]; intros [|y l'] i H; simpl in H;
    try discriminate; [reflexivity|].
  injection H as Hxy Hl. simpl.
  destruct (CInt.to_unsigned i <? pos)%Z; [now apply IH | exact Hxy].
Qed.

(** X8. Whatever [mini_file_insert_key_and_value] returns,
    [mini_file_get_section] answers at every position what it answered
    before; and when the allocations of the call are served,
    [mini_file_get_value] answers for every section and every key other
    than the inserted one what it answered before. *)
Theorem insertion_preserves_other_lookups :
  forall (al : allocator) (mf : MiniFile) (k v : string) (r : retptr)
         (mf' : MiniFile),
    mini_file_insert_key_and_value al mf k v = Done (r, mf') ->
    (forall pos : Z,
        mini_file_get_section mf' pos = mini_file_get_section mf pos) /\
    (succeeds al ->
     forall s k' : string,
       k' <> k ->
       mini_file_get_value mf' s k' = mini_file_get_value mf s k').
Proof.
  intros al mf k v r mf' H. split.
  - intros pos. unfold mini_file_get_section. apply advance_names.
    now apply insert_key_and_value_frame in H as (_ & _ & Hn & _).
  - intros Hal s k' Hk. unfold mini_file_insert_key_and_value in H.
    destruct (section mf) as [|hd rest] eqn:Hs; [now injection H as _ <-|].
    destruct (__current_section mf) as [p|]; [|now injection H as _ <-].
    destruct (deref mf p) as [cur|]; simpl in H; [|discriminate].
    destruct (mini_file_find_key cur k) as [[e|]|]; simpl in H;
      [now injection H as _ <- | | discriminate].
    rewrite (section_data_new_succeeds al k v Hal) in H.
    injection H as _ <-.
    unfold mini_file_get_value, mini_file_find_section, deref. rewrite Hs.
    cbn [section].
    rewrite (find_section_from_names
               ({| name := name hd;
                   data := {| key := Some k; value := Some v |} :: data hd |}
                :: rest) (hd :: rest) 0 s eq_refl).
    destruct (find_section_from (hd :: rest) 0 s) as [[[|j]|]|];
      try reflexivity.
    simpl. unfold mini_file_find_key. simpl.
    rewrite strcmp_diff by congruence. reflexivity.
Qed.

Lemma insertion_preserves_other_lookups_witness :
  exists mf',
    mini_file_insert_key_and_value no_failure doc_A_k "j" "w"
    = Done (RetSelf, mf') /\
    mini_file_get_value mf' "A" "k" = mini_file_get_value doc_A_k "A" "k".
Proof.
  eexists. split; [reflexivity|].
  apply (proj2 (insertion_preserves_other_lookups
                  no_failure doc_A_k "j" "w" RetSelf _ eq_refl)).
  - reflexivity.
  - discriminate.
Defined.

(** X9. When the section the cursor is on holds the key, all keys of that
    section being stored, [mini_file_insert_key_and_value] returns the
    document and leaves it exactly as it was, wherever the cursor is in the
    list and whatever the allocator would answer. *)
Theorem duplicate_insert_is_noop :
  forall (al : allocator) (mf : MiniFile) (k v : string) (p : nat)
         (cur : Section_t),
    __current_section mf = Some p ->
    nth_error (section mf) p = Some cur ->
    keys_ok (data cur) ->
    In (Some k) (keys_of cur) ->
    mini_file_insert_key_and_value al mf k v = Done (RetSelf, mf).
Proof.
  intros al mf k v p cur Hc Hn Hok Hin.
  destruct (find_key_from_present (data cur) k Hok Hin) as (e & Hf & _).
  destruct (section mf) as [|hd rest] eqn:Hs.
  - destruct p; discriminate.
  - apply (insert_key_and_value_duplicate al mf k v hd rest p cur e);
      auto. now rewrite Hs.
Qed.

Lemma duplicate_insert_is_noop_witness :
  mini_file_insert_key_and_value [false] doc_server_client "timeout" "60"
  = Done (RetSelf, doc_server_client).
Proof.
  apply (duplicate_insert_is_noop [false] doc_server_client "timeout" "60" 0
           {| name := Some "client"%string;
              data := [ entry_of ("timeout", "30")%string ] |}).
  - reflexivity.
  - reflexivity.
  - repeat constructor; discriminate.
  - simpl. auto.
Defined.

(** ** The cursor of a reachable document *)

(** X10. On every document the API can build, whatever the allocator did
    and whatever [mini_file_new] left in the cursor field: once the document
    has a section, the cursor is the position of a section of the list. *)
Theorem reachable_cursor_in_list :
  forall mf : MiniFile,
    reachable mf -> section mf <> [] ->
    exists i sec,
      __current_section mf = Some i /\ nth_error (section mf) i = Some sec.
Proof.
  intros mf Hr Hne.
  destruct (reachable_cursor_ok mf Hr) as [He | (i & Hi & Hlt)];
    [contradiction|].
  destruct (nth_error (section mf) i) as [sec|] eqn:Hn.
  - now exists i, sec.
  - apply nth_error_None in Hn. lia.
Qed.

Lemma doc_server_client_reachable : reachable doc_server_client.
Proof.
  apply (reachable_run fresh_cfg ops_round_trip);
    [exact fresh_cfg_reachable | reflexivity].
Qed.

Lemma reachable_cursor_in_list_witness :
  exists i sec,
    __current_section doc_server_client = Some i /\
    nth_error (section doc_server_client) i = Some sec.
Proof.
  apply (reachable_cursor_in_list doc_server_client
           doc_server_client_reachable).
  discriminate.
Defined.

Lemma run_defined_witness :
  exists mf',
    run doc_server_client (select_all ["server"; "extra"]%string) = Done mf' /\
    reachable mf' /\ strings_ok mf'.
Proof.
  apply (run_defined (select_all ["server"; "extra"]%string)
           doc_server_client doc_server_client_reachable).
  - split; repeat constructor; discriminate.
  - repeat constructor.
Defined.

(** ** When [malloc] refuses the node *)

(** X11. When [malloc] refuses the node, [mini_file_insert_section] leaves
    the section list as it was, and the whole document when it returns
    [NULL]; [mini_file_insert_key_and_value] leaves the whole document as it
    was. *)
Theorem malloc_failure_leaves_document :
  forall (al : allocator) (mf : MiniFile),
    alloc_nth al 0 = false ->
    (forall (n : string) (r : retptr) (mf' : MiniFile),
        mini_file_insert_section al mf n = Done (r, mf') ->
        section mf' = section mf /\ file_name mf' = file_name mf /\
        (r = RetNull -> mf' = mf)) /\
    (forall (k v : string) (r : retptr) (mf' : MiniFile),
        mini_file_insert_key_and_value al mf k v = Done (r, mf') ->
        mf' = mf).
Proof.
  intros al mf Hal. split.
  - intros n r mf' H.
    unfold mini_file_insert_section, mini_file_section_new in H.
    rewrite Hal in H.
    destruct (mini_file_find_section mf n) as [[i|]|]; simpl in H;
      [| |discriminate].
    + injection H as <- <-. simpl. repeat split. discriminate.
    + injection H as <- <-. auto.
  - intros k v r mf' H.
    exact (insert_key_and_value_malloc_fails al mf k v r mf' Hal H).
Qed.

Lemma malloc_failure_leaves_document_witness :
  mini_file_insert_key_and_value [false] doc_A "k" "v" = Done (RetNull, doc_A) /\
  doc_A = doc_A.
Proof.
  split; [reflexivity|].
  apply (proj2 (malloc_failure_leaves_document [false] doc_A eq_refl)
               "k"%string "v"%string RetNull doc_A).
  reflexivity.
Defined.

(** ** Selection, insertion and lookup together *)

(** X13. On a document whose section names are all stored and that has no
    section of the name [n]: selecting [n] and then inserting ([k], [v]),
    the allocations of both calls served, returns the document both times,
    after which [n] is the section at position 0, it holds one key, its key
    at position 0 is [k], and the value of [k] in [n] is [v]. *)
Theorem select_insert_lookup :
  forall (al1 al2 : allocator) (mf : MiniFile) (n k v : string),
    names_ok (section mf) -> ~ In (Some n) (section_names mf) ->
    succeeds al1 -> succeeds al2 ->
    exists mf1 mf2,
      mini_file_insert_section al1 mf n = Done (RetSelf, mf1) /\
      mini_file_insert_key_and_value al2 mf1 k v = Done (RetSelf, mf2) /\
      mini_file_get_section mf2 0 = Some n /\
      mini_file_get_number_of_keys mf2 n = Done 1%Z /\
      mini_file_get_key mf2 n 0 = Done (Some k) /\
      mini_file_get_value mf2 n k = Done (Some v).
Proof.
  intros al1 al2 mf n k v Hok Hnot H1 H2.
  assert (Hf : mini_file_find_section mf n = Done None)
    by now apply find_section_from_absent.
  eexists. eexists.
  split; [exact (insert_section_created al1 mf n Hf H1)|].
  split.
  - apply (insert_key_and_value_prepends al2 _ k v
             {| name := Some n; data := [] |} (section mf) 0
             {| name := Some n; data := [] |}); auto.
  - simpl. split; [reflexivity|].
    unfold mini_file_get_number_of_keys, mini_file_get_key,
      mini_file_get_value, mini_file_find_section, mini_file_find_key.
    simpl. rewrite !strcmp_refl. simpl. rewrite strcmp_refl. auto.
Qed.

Lemma select_insert_lookup_witness :
  exists mf1 mf2,
    mini_file_insert_section no_failure doc_A_k "B" = Done (RetSelf, mf1) /\
    mini_file_insert_key_and_value no_failure mf1 "k" "w"
    = Done (RetSelf, mf2) /\
    mini_file_get_section mf2 0 = Some "B"%string /\
    mini_file_get_number_of_keys mf2 "B" = Done 1%Z /\
    mini_file_get_key mf2 "B" 0 = Done (Some "k"%string) /\
    mini_file_get_value mf2 "B" "k" = Done (Some "w"%string).
Proof.
  apply (select_insert_lookup no_failure no_failure doc_A_k "B" "k" "w").
  - repeat constructor; discriminate.
  - simpl. intros [E|[]]; discriminate.
  - reflexivity.
  - reflexivity.
Defined.

(** ** Sections without a name *)

Lemma find_section_from_undefined l i s :
  find_section_from l i s = Undefined <->
  exists pre sec post,
    l = pre ++ sec :: post /\ names_ok pre /\
    ~ In (Some s) (map name pre) /\ name sec = None.
Proof.
  split.
  - revert i. induction l as [|x l IH]; intros i H; simpl in H;
      [discriminate|].
    destruct (name x) as [m|] eqn:Hm.
    + destruct (strcmp m s =? 0)%Z eqn:E; [discriminate|].
      destruct (IH _ H) as (pre & sec & post & -> & Hok & Hnot & Hn).
      exists (x :: pre), sec, post. split; [reflexivity|].
      split; [constructor; [congruence | exact Hok]|].
      split; [|exact Hn].
      simpl. intros [Heq|Hin]; [|contradiction].
      rewrite Hm in Heq. injection Heq as ->.
      rewrite strcmp_refl in E. discriminate.
    + exists [], x, l. repeat split; auto. constructor.
  - intros (pre & sec & post & -> & Hok & Hnot & Hn). revert i.
    induction pre as [|x pre IH]; intros i; simpl.
    + now rewrite Hn.
    + inversion Hok as [|? ? Hx Hpre]; subst.
      destruct (name x) as [m|] eqn:Hm; [|congruence].
      simpl in Hnot. rewrite strcmp_diff.
      * apply IH; [exact Hpre | tauto].
      * intros ->. apply Hnot. left. now rewrite Hm.
Qed.

(** X14. The search of a section by name has undefined behaviour exactly
    when a section without name (its [strdup] was refused) comes before any
    section of the name searched; [mini_file_insert_section],
    [mini_file_get_value], [mini_file_get_key] and
    [mini_file_get_number_of_keys] for that name are then undefined too. *)
Theorem nameless_section_breaks_search :
  forall (mf : MiniFile) (s : string),
    (mini_file_find_section mf s = Undefined <->
     exists pre sec post,
       section mf = pre ++ sec :: post /\ names_ok pre /\
       ~ In (Some s) (map name pre) /\ name sec = None) /\
    (mini_file_find_section mf s = Undefined ->
     forall (al : allocator) (k : string) (pos : Z),
       mini_file_insert_section al mf s = Undefined /\
       mini_file_get_value mf s k = Undefined /\
       mini_file_get_key mf s pos = Undefined /\
       mini_file_get_number_of_keys mf s = Undefined).
Proof.
  intros mf s. split.
  - apply find_section_from_undefined.
  - intros H al k pos.
    unfold mini_file_insert_section, mini_file_get_value, mini_file_get_key,
      mini_file_get_number_of_keys.
    rewrite H. repeat split.
Qed.

Lemma nameless_section_breaks_search_witness :
  mini_file_get_value
    {| file_name := Some "cfg"%string;
       section := [ {| name := None; data := [] |};
                    {| name := Some "A"%string; data := [] |} ];
       __current_section := Some 0%nat |} "A" "k" = Undefined.
Proof.
  apply (proj2 (nameless_section_breaks_search
                  {| file_name := Some "cfg"%string;
                     section := [ {| name := None; data := [] |};
                                  {| name := Some "A"%string; data := [] |} ];
                     __current_section := Some 0%nat |} "A"%string)
               eq_refl [] "k"%string 0%Z).
Defined.

(** X17. On every document the API can build, whatever the allocator did,
    every section behind the head has a stored name: a section without name
    can only be the head of the list. *)
Theorem reachable_nameless_only_head :
  forall mf : MiniFile, reachable mf -> names_ok (tl (section mf)).
Proof.
  induction 1 as [junk al fname mf Hnew | mf o r mf' Hr IH Hstep].
  - unfold mini_file_new in Hnew.
    destruct (alloc_nth al 0); [|discriminate].
    injection Hnew as <-. constructor.
  - destruct o as [al n | al k v]; simpl in Hstep.
    + apply insert_section_names in Hstep as [Hs | (s & Hs & Hok & _)];
        rewrite Hs; [exact IH | exact Hok].
    + apply insert_key_and_value_frame in Hstep as (_ & _ & _ & Ht).
      now rewrite Ht.
Qed.

Lemma reachable_nameless_only_head_witness :
  names_ok (tl (section doc_server_client)).
Proof.
  apply (reachable_nameless_only_head doc_server_client
           doc_server_client_reachable).
Defined.

(** ** A fresh document *)

(** X15. [mini_file_new] returns [NULL] exactly when the file name is [NULL]
    or [malloc] refuses the structure.  The document it returns otherwise is
    empty, whatever the allocator answered for the name and whatever is left
    in its cursor field: no section at any position, no section count, and
    for every name no key count, no key and no value. *)
Theorem new_document_is_empty :
  forall (junk : option nat) (al : allocator) (fname : option string),
    (mini_file_new junk al fname = None <->
     fname = None \/ alloc_nth al 0 = false) /\
    (forall mf : MiniFile,
        mini_file_new junk al fname = Some mf ->
        mini_file_get_number_of_sections mf = 0%Z /\
        forall (s k : string) (pos : Z),
          mini_file_get_section mf pos = None /\
          mini_file_get_number_of_keys mf s = Done 0%Z /\
          mini_file_get_key mf s pos = Done None /\
          mini_file_get_value mf s k = Done None).
Proof.
  intros junk al fname. unfold mini_file_new. split.
  - destruct fname as [f|]; [|tauto].
    destruct (alloc_nth al 0); split; try tauto; try discriminate.
    intros [H|H]; discriminate.
  - intros mf H. destruct fname as [f|]; [|discriminate].
    destruct (alloc_nth al 0); [|discriminate].
    injection H as <-. repeat split.
Qed.

Lemma new_document_is_empty_witness :
  mini_file_get_number_of_sections junk_cfg = 0%Z.
Proof.
  apply (proj2 (new_document_is_empty (Some 7%nat) no_failure
                  (Some "cfg"%string)) junk_cfg).
  reflexivity.
Defined.

(** ** Positions after a selection *)

(** X16. On a document whose section names are all stored:
    - selecting a name it holds changes neither the count of sections nor
      the name at any position, whatever the allocator;
    - selecting a name it does not hold, the allocations served, adds one
      to the count (modulo 2^32), puts the new name at position 0 and moves
      the name of every position to the next one. *)
Theorem selection_and_positions :
  forall (mf : MiniFile) (n : string),
    names_ok (section mf) ->
    (In (Some n) (section_names mf) ->
     forall al : allocator,
     exists mf',
       mini_file_insert_section al mf n = Done (RetSelf, mf') /\
       mini_file_get_number_of_sections mf'
       = mini_file_get_number_of_sections mf /\
       forall pos : Z,
         mini_file_get_section mf' pos = mini_file_get_section mf pos) /\
    (~ In (Some n) (section_names mf) ->
     forall al : allocator,
     succeeds al ->
     exists mf',
       mini_file_insert_section al mf n = Done (RetSelf, mf') /\
       mini_file_get_number_of_sections mf'
       = CInt.uint_incr (mini_file_get_number_of_sections mf) /\
       mini_file_get_section mf' 0 = Some n /\
       forall pos : Z,
         (0 <= pos < CInt.UINT_MAX)%Z ->
         mini_file_get_section mf' (pos + 1) = mini_file_get_section mf pos).
Proof.
  intros mf n Hok. split.
  - intros Hin al.
    destruct (insert_section_present al mf n Hok Hin) as (i & sec & H & _).
    eexists. split; [exact H|]. split; reflexivity.
  - intros Hnot al Hal.
    assert (Hf : mini_file_find_section mf n = Done None)
      by now apply find_section_from_absent.
    eexists. split; [exact (insert_section_created al mf n Hf Hal)|].
    split; [|split].
    + unfold mini_file_get_number_of_sections. cbn [section count_nodes].
      change (CInt.uint_incr 0) with 1%Z.
      rewrite (count_nodes_length (section mf) 1) by lia.
      rewrite (count_nodes_length (section mf) 0) by lia.
      unfold CInt.uint_incr. rewrite Z.add_0_l, Zplus_mod_idemp_l.
      f_equal. lia.
    + reflexivity.
    + intros pos Hp. unfold CInt.UINT_MAX in Hp.
      rewrite !get_section_nth by (unfold CInt.is_uint, CInt.UINT_MAX; lia).
      simpl section.
      replace (Z.to_nat (pos + 1)) with (S (Z.to_nat pos)) by lia.
      reflexivity.
Qed.

Lemma selection_and_positions_witness :
  exists mf',
    mini_file_insert_section no_failure doc_server_client "extra"
    = Done (RetSelf, mf') /\
    mini_file_get_number_of_sections mf'
    = CInt.uint_incr (mini_file_get_number_of_sections doc_server_client) /\
    mini_file_get_section mf' 0 = Some "extra"%string /\
    forall pos : Z,
      (0 <= pos < CInt.UINT_MAX)%Z ->
      mini_file_get_section mf' (pos + 1)
      = mini_file_get_section doc_server_client pos.
Proof.
  assert (Hok : names_ok (section doc_server_client))
    by (repeat constructor; discriminate).
  apply (proj2 (selection_and_positions doc_server_client "extra" Hok)).
  - simpl. intros [E|[E|[]]]; discriminate.
  - reflexivity.
Defined.

(** ** Counts and positions agree *)

(** X19. On a document whose section names are all stored and whose
    sections can be counted in an [unsigned int], the positions at which
    [mini_file_get_section] returns a name are exactly those below
    [mini_file_get_number_of_sections]. *)
Theorem section_positions_below_count :
  forall (mf : MiniFile) (pos : Z),
    names_ok (section mf) ->
    (Z.of_nat (List.length (section mf)) <= CInt.UINT_MAX)%Z ->
    CInt.is_uint pos ->
    (mini_file_get_section mf pos <> None <->
     (pos < mini_file_get_number_of_sections mf)%Z).
Proof.
  intros mf pos Hok Hlen Hp.
  unfold mini_file_get_number_of_sections.
  rewrite count_nodes_length, Z.add_0_l by lia.
  rewrite Z.mod_small by (unfold CInt.UINT_MAX in Hlen; lia).
  rewrite get_section_nth by exact Hp. destruct Hp as [Hp0 Hp1].
  destruct (nth_error (section mf) (Z.to_nat pos)) as [sec|] eqn:Hn.
  - split.
    + intros _. assert (Z.to_nat pos < List.length (section mf))%nat
        by (apply nth_error_Some; congruence). lia.
    + intros _. unfold names_ok in Hok. rewrite Forall_forall in Hok.
      apply Hok. eapply nth_error_In; eauto.
  - apply nth_error_None in Hn. split; [congruence | lia].
Qed.

Lemma section_positions_below_count_witness :
  mini_file_get_section doc_server_client 1 <> None <->
  (1 < mini_file_get_number_of_sections doc_server_client)%Z.
Proof.
  apply (section_positions_below_count doc_server_client 1).
  - repeat constructor; discriminate.
  - unfold CInt.UINT_MAX. simpl. lia.
  - unfold CInt.is_uint, CInt.UINT_MAX. lia.
Defined.

(** X20. For the first section of a name, its keys all stored and countable
    in an [unsigned int], the positions at which [mini_file_get_key] returns
    a key are exactly those below what [mini_file_get_number_of_keys]
    returns for that name. *)
Theorem key_positions_below_count :
  forall (mf : MiniFile) (s : string) (pre : list Section_t) (sec : Section_t)
         (post : list Section_t) (pos : Z),
    section mf = pre ++ sec :: post ->
    names_ok pre -> ~ In (Some s) (map name pre) -> name sec = Some s ->
    keys_ok (data sec) ->
    (Z.of_nat (List.length (data sec)) <= CInt.UINT_MAX)%Z ->
    CInt.is_uint pos ->
    exists n,
      mini_file_get_number_of_keys mf s = Done n /\
      (mini_file_get_key mf s pos <> Done None <-> (pos < n)%Z).
Proof.
  intros mf s pre sec post pos Hs Hok Hnot Hn Hkeys Hlen Hp.
  exists (Z.of_nat (List.length (data sec))). split.
  - unfold mini_file_get_number_of_keys, mini_file_find_section.
    rewrite Hs, (find_section_from_app pre sec post 0 s Hok Hnot Hn). simpl.
    rewrite (deref_first_named mf pre sec post Hs). simpl.
    rewrite count_nodes_length by lia. rewrite Z.add_0_l.
    f_equal. apply Z.mod_small. unfold CInt.UINT_MAX in Hlen. lia.
  - assert (Hg : mini_file_get_key mf s pos =
                 Done match nth_error (data sec) (Z.to_nat pos) with
                      | Some d => key d
                      | None => None
                      end).
    { apply (get_key_nth mf s pos (List.length pre) sec).
      - unfold mini_file_find_section.
        now rewrite Hs, (find_section_from_app pre sec post 0 s Hok Hnot Hn).
      - rewrite Hs, nth_error_app2 by lia. now rewrite Nat.sub_diag.
      - exact Hp. }
    rewrite Hg. destruct Hp as [Hp0 Hp1].
    destruct (nth_error (data sec) (Z.to_nat pos)) as [d|] eqn:Hd.
    + split.
      * intros _. assert (Z.to_nat pos < List.length (data sec))%nat
          by (apply nth_error_Some; congruence). lia.
      * intros _ E. injection E as E. unfold keys_ok in Hkeys.
        rewrite Forall_forall in Hkeys.
        apply (Hkeys d); [eapply nth_error_In; eauto | exact E].
    + apply nth_error_None in Hd. split; [congruence | lia].
Qed.

Lemma key_positions_below_count_witness :
  exists n,
    mini_file_get_number_of_keys doc_server_client "server" = Done n /\
    (mini_file_get_key doc_server_client "server" 2 <> Done None <->
     (2 < n)%Z).
Proof.
  apply (key_positions_below_count doc_server_client "server"
           [ {| name := Some "client"%string;
                data := [ entry_of ("timeout", "30")%string ] |} ]
           {| name := Some "server"%string;
              data := [ entry_of ("port", "8080")%string;
                        entry_of ("host", "localhost")%string ] |} [] 2).
  - reflexivity.
  - repeat constructor; discriminate.
  - simpl. intros [E|[]]; discriminate.
  - reflexivity.
  - repeat constructor; discriminate.
  - unfold CInt.UINT_MAX. simpl. lia.
  - unfold CInt.is_uint, CInt.UINT_MAX. lia.
Defined.

(** ** Distinct keys while the cursor stays on the head *)

Lemma keys_ok_no_null d : keys_ok d -> ~ In None (map key d).
Proof.
  intros Hok Hin. apply in_map_iff in Hin as (e & He & Hin).
  unfold keys_ok in Hok. rewrite Forall_forall in Hok.
  now apply (Hok e Hin).
Qed.

(** X18. Let the cursor be on the head section and the keys of every
    section be pairwise distinct.  After [mini_file_insert_key_and_value],
    and after a [mini_file_insert_section] for a name that no section behind
    the head has, both still hold, whatever the allocator answers. *)
Theorem keys_distinct_while_cursor_on_head :
  forall (mf : MiniFile) (o : op) (r : retptr) (mf' : MiniFile),
    keys_distinct mf -> cursor_on_head mf ->
    (forall al n, o = SelectSection al n ->
                  ~ In (Some n) (map name (tl (section mf)))) ->
    step mf o = Done (r, mf') ->
    keys_distinct mf' /\ cursor_on_head mf'.
Proof.
  intros mf o r mf' Hd Hc Hsel H. destruct o as [al n | al k v]; simpl in H.
  - specialize (Hsel al n eq_refl).
    unfold mini_file_insert_section, mini_file_find_section in H.
    destruct (find_section_from (section mf) 0 n) as [[i|]|] eqn:Hf;
      simpl in H; [| |discriminate].
    + injection H as _ <-. split; [exact Hd|]. right. simpl.
      apply find_section_from_found in Hf as (j & sec & -> & Hj & Hn).
      destruct j as [|j]; [reflexivity|]. exfalso. apply Hsel.
      destruct (section mf) as [|x l]; [discriminate|]. simpl in *.
      rewrite <- Hn. apply in_map. eapply nth_error_In; eauto.
    + unfold mini_file_section_new in H. destruct (alloc_nth al 0).
      * injection H as _ <-. split; [|now right].
        constructor; [constructor | exact Hd].
      * injection H as _ <-. now split.
  - unfold mini_file_insert_key_and_value in H.
    destruct (section mf) as [|hd rest] eqn:Hs.
    { injection H as _ <-. split; [exact Hd | left; exact Hs]. }
    destruct Hc as [Hc | Hc]; [rewrite Hs in Hc; discriminate|].
    rewrite Hc in H. unfold deref in H. rewrite Hs in H. simpl in H.
    unfold mini_file_find_key in H.
    destruct (find_key_from (data hd) k) as [[e|]|] eqn:Hf; simpl in H;
      [| |discriminate].
    + injection H as _ <-. split; [exact Hd | right; exact Hc].
    + apply find_key_from_missing in Hf as [Hok Hnot].
      unfold keys_distinct in Hd. rewrite Hs in Hd.
      inversion Hd as [|? ? Hhd Hrest]; subst.
      unfold mini_file_section_data_new in H. destruct (alloc_nth al 0).
      * injection H as _ <-. split; [|now right].
        constructor; [|exact Hrest].
        unfold keys_of. simpl. constructor; [|exact Hhd].
        unfold strdup. destruct (alloc_nth al 1);
          [exact Hnot | now apply keys_ok_no_null].
      * injection H as _ <-. split; [|right; exact Hc].
        unfold keys_distinct. rewrite Hs. now constructor.
Qed.

Lemma keys_distinct_while_cursor_on_head_witness :
  exists mf',
    step doc_A_k (InsertEntry no_failure "j" "w") = Done (RetSelf, mf') /\
    keys_distinct mf' /\ cursor_on_head mf'.
Proof.
  eexists. split; [reflexivity|].
  apply (keys_distinct_while_cursor_on_head doc_A_k
           (InsertEntry no_failure "j" "w") RetSelf).
  - repeat constructor. simpl. tauto.
  - now right.
  - discriminate.
  - reflexivity.
Defined.
